(** * NeuralNetworkViz: the feed-forward pass, the colour scales and the
      canvas redraw of [src/components/NeuralNetworkViz/NeuralNetworkViz.js]

    The component keeps three JavaScript objects ([inputs], [weights],
    [biases]) in React state, derives the three activations from them and
    redraws a canvas.  This development embeds those functions and proves
    the properties the specification states about them.

    Numbers.  A JavaScript number is an IEEE-754 double.  Here the finite
    doubles are idealised as the real numbers [R] (no rounding, no
    overflow), and the one special value the code can meet, [NaN], is kept
    as a constructor of its own: reading a property that an object does not
    have yields [undefined], which arithmetic turns into [NaN].  Where the
    rounding of binary64 decides a property (the strictness of the
    sigmoid), the operation is modelled once more with its rounding
    ([sigmoid64]). *)

From Stdlib Require Import Reals Lra Zfloor.
From stdpp Require Import gmap strings.

(** ** JavaScript numbers *)

Module JS.

Inductive num : Type :=
| Num (r : R)
| NaN.

(** [undefined] coerced by an arithmetic operator ([ToNumber]). *)
Definition ToNumber (v : option R) : num :=
  match v with
  | Some r => Num r
  | None => NaN
  end.

Definition lift1 (f : R -> R) (a : num) : num :=
  match a with
  | Num x => Num (f x)
  | NaN => NaN
  end.

Definition lift2 (f : R -> R -> R) (a b : num) : num :=
  match a, b with
  | Num x, Num y => Num (f x y)
  | _, _ => NaN
  end.

Definition add : num -> num -> num := lift2 Rplus.
Definition sub : num -> num -> num := lift2 Rminus.
Definition mul : num -> num -> num := lift2 Rmult.
Definition neg : num -> num := lift1 Ropp.

(** Division.  A zero divisor gives an infinity or [NaN] in JavaScript;
    infinities are outside the real-valued model, so both are collapsed
    to [NaN].  No division of the component has a zero divisor. *)
Definition div (a b : num) : num :=
  match a, b with
  | Num x, Num y => if Req_dec_T y 0 then NaN else Num (x / y)
  | _, _ => NaN
  end.

(** [a > b] and [a < b]: every comparison with [NaN] is false. *)
Definition gt (a b : num) : bool :=
  match a, b with
  | Num x, Num y => if Rlt_dec y x then true else false
  | _, _ => false
  end.

Definition lt (a b : num) : bool := gt b a.

(** The same order as a proposition, for statements. *)
Definition Lt (a b : num) : Prop :=
  match a, b with
  | Num x, Num y => (x < y)%R
  | _, _ => False
  end.

Definition Le (a b : num) : Prop :=
  match a, b with
  | Num x, Num y => (x <= y)%R
  | _, _ => False
  end.

(** [Number.isFinite]: in the model, every number but [NaN]. *)
Definition isFinite (a : num) : Prop :=
  match a with
  | Num _ => True
  | NaN => False
  end.

(** [x || d] on numbers: [undefined], [NaN] and [0] are falsy. *)
Definition or_else (v : option R) (d : R) : R :=
  match v with
  | Some r => if Req_dec_T r 0 then d else r
  | None => d
  end.

End JS.

(** The [Math] object. *)
Module Math.

Definition exp : JS.num -> JS.num := JS.lift1 Rtrigo_def.exp.
Definition abs : JS.num -> JS.num := JS.lift1 Rabs.
Definition min : JS.num -> JS.num -> JS.num := JS.lift2 Rmin.

(** [Math.round]: the nearest integer, a tie going up: [floor (x + 1/2)]. *)
Definition round : JS.num -> JS.num :=
  JS.lift1 (fun x => IZR (Zfloor (x + / 2))).

End Math.

Declare Scope js_scope.
Delimit Scope js_scope with js.
Bind Scope js_scope with JS.num.
Notation "a + b" := (JS.add a b) : js_scope.
Notation "a - b" := (JS.sub a b) : js_scope.
Notation "a * b" := (JS.mul a b) : js_scope.
Notation "a / b" := (JS.div a b) : js_scope.
Notation "- a" := (JS.neg a) : js_scope.
Notation "a >? b" := (JS.gt a b) (at level 70) : js_scope.
Notation "a <? b" := (JS.lt a b) (at level 70) : js_scope.

(** Integer literals of the source; [0.5] is written [JS.Num 0.5]. *)
Definition lit (z : Z) : JS.num := JS.Num (IZR z).
Coercion lit : Z >-> JS.num.

Local Open Scope Z_scope.

(** ** The component *)

(** [const sigmoid = (x) => 1 / (1 + Math.exp(-x));], read over the real
    numbers: which formula the code computes.  What the rounding of
    binary64 changes is in [sigmoid64] below. *)
Definition sigmoid (x : JS.num) : JS.num :=
  (1 / (1 + Math.exp (- x)))%js.

(** *** The same line in binary64 *)

Module B64.

(** A real number that a binary64 can hold, the range of its exponent
    aside: an integer of at most 53 bits times a power of 2. *)
Definition representable (x : R) : Prop :=
  exists m e : Z, Z.abs m < 2 ^ 53 /\ x = (IZR m * powerRZ 2 e)%R.


(** A result that is a number or [Infinity]. *)
Inductive result : Type :=
| Finite (r : R)
| Infinity.

(** What [Math.exp (x)] may return.  The language leaves its accuracy to
    the implementation; this is the contract of an implementation that is
    right to within one unit in the last place: [Math.exp (0)] is 1;
    the result is [Infinity] only if [e^x] is 2^1023 or more and finite
    only if [e^x] is below 2^1024; it is 0 if [e^x] is below 2^-1075,
    half the least binary64 above 0; and a finite result is within
    [e^x * 2^-52], or 2^-1074 for the least results, of [e^x]. *)
Definition exp (x : R) (y : result) : Prop :=
  match y with
  | Infinity => (2 ^ 1023 <= Rtrigo_def.exp x)%R
  | Finite r =>
      representable r
      /\ (0 <= r)%R
      /\ (Rtrigo_def.exp x < 2 ^ 1024)%R
      /\ (x = 0%R -> r = 1%R)
      /\ (Rtrigo_def.exp x < / 2 ^ 1075 -> r = 0%R)%R
      /\ (Rabs (r - Rtrigo_def.exp x)
          <= Rmax (Rtrigo_def.exp x * / 2 ^ 52) (/ 2 ^ 1074))%R
  end.

End B64.


(** A JavaScript object whose property values are numbers. *)
Abbreviation object := (gmap string R).

(** The React state of [NeuralNetworkViz]. *)
Record State : Type := mkState {
  weights : object;
  biases : object;
  inputs : object;
  isFloating : bool;
  dragPosition : R * R;
}.

(** The values given to [useState] on the first render. *)
Definition initialState : State := {|
  weights := {[ "A->H1" := 0.5%R; "A->H2" := 0.5%R; "B->H1" := 0.5%R;
                "B->H2" := 0.5%R; "H1->O" := 0.5%R; "H2->O" := 0.5%R ]};
  biases := {[ "H1" := 0%R; "H2" := 0%R; "O" := 0%R ]};
  inputs := {[ "A" := 0%R; "B" := 0%R ]};
  isFloating := false;
  dragPosition := (0%R, 0%R);
|}.

(** The object returned by [calculateActivations]. *)
Record Activations : Type := mkActivations {
  H1 : JS.num;
  H2 : JS.num;
  O : JS.num;
}.

(** [calculateActivations]: the destructuring reads are property lookups;
    a missing property is [undefined] and becomes [NaN] in the sums. *)
Definition calculateActivations (st : State) : Activations :=
  let A := JS.ToNumber (inputs st !! "A") in
  let B := JS.ToNumber (inputs st !! "B") in
  let wAH1 := JS.ToNumber (weights st !! "A->H1") in
  let wAH2 := JS.ToNumber (weights st !! "A->H2") in
  let wBH1 := JS.ToNumber (weights st !! "B->H1") in
  let wBH2 := JS.ToNumber (weights st !! "B->H2") in
  let wH1O := JS.ToNumber (weights st !! "H1->O") in
  let wH2O := JS.ToNumber (weights st !! "H2->O") in
  let bH1 := JS.ToNumber (biases st !! "H1") in
  let bH2 := JS.ToNumber (biases st !! "H2") in
  let bO := JS.ToNumber (biases st !! "O") in
  let h1_input := (A * wAH1 + B * wBH1 + bH1)%js in
  let h2_input := (A * wAH2 + B * wBH2 + bH2)%js in
  let h1_activation := sigmoid h1_input in
  let h2_activation := sigmoid h2_input in
  let o_input := (h1_activation * wH1O + h2_activation * wH2O + bO)%js in
  let o_activation := sigmoid o_input in
  {| H1 := h1_activation; H2 := h2_activation; O := o_activation |}.

(** [nodeActivations[key]]: a property read on the returned object. *)
Definition activation_get (acts : Activations) (key : string) : option JS.num :=
  if decide (key = "H1") then Some (H1 acts)
  else if decide (key = "H2") then Some (H2 acts)
  else if decide (key = "O") then Some (O acts)
  else None.

(** *** State updates *)

(** The three React setters, called with an updater function. *)
Definition setInputs (f : object -> object) (st : State) : State :=
  {| weights := weights st; biases := biases st; inputs := f (inputs st);
     isFloating := isFloating st; dragPosition := dragPosition st |}.

Definition setWeights (f : object -> object) (st : State) : State :=
  {| weights := f (weights st); biases := biases st; inputs := inputs st;
     isFloating := isFloating st; dragPosition := dragPosition st |}.

Definition setBiases (f : object -> object) (st : State) : State :=
  {| weights := weights st; biases := f (biases st); inputs := inputs st;
     isFloating := isFloating st; dragPosition := dragPosition st |}.

(** The three functions handed to [debounce],
    [(key, newValue) => { setInputs((prev) => ({ ...prev, [key]: newValue })); }]
    and its two siblings: [{ ...prev, [key]: newValue }] is the object
    [prev] with [key] set, a new property if [prev] has none.  They are
    what runs when a debounced call lands. *)
Definition inputsCallback (key : string) (newValue : R) : State -> State :=
  setInputs (fun prev => <[key := newValue]> prev).

Definition weightsCallback (key : string) (newValue : R) : State -> State :=
  setWeights (fun prev => <[key := newValue]> prev).

Definition biasesCallback (key : string) (newValue : R) : State -> State :=
  setBiases (fun prev => <[key := newValue]> prev).

(** [resetAll]: the three setters called with a fresh object literal. *)
Definition resetAll (st : State) : State :=
  let st1 := setInputs (fun _ => {[ "A" := 0%R; "B" := 0%R ]}) st in
  let st2 :=
    setWeights (fun _ => {[ "A->H1" := 0.5%R; "A->H2" := 0.5%R;
                            "B->H1" := 0.5%R; "B->H2" := 0.5%R;
                            "H1->O" := 0.5%R; "H2->O" := 0.5%R ]}) st1 in
  setBiases (fun _ => {[ "H1" := 0%R; "H2" := 0%R; "O" := 0%R ]}) st2.

(** A slider of the page: which object it edits and which property. *)
Inductive group : Type := Inputs | Weights | Biases.

#[global] Instance group_eq_dec : EqDecision group.
Proof. solve_decision. Defined.

Record change : Type := mkChange {
  target : group;
  property : string;
  value : R;
}.

(** The change [c] landing: the callback of its group run on it. *)
Definition apply_change (c : change) : State -> State :=
  match target c with
  | Inputs => inputsCallback (property c) (value c)
  | Weights => weightsCallback (property c) (value c)
  | Biases => biasesCallback (property c) (value c)
  end.

(** *** The debounced slider handlers *)

(** Modelled from the spec: [debounce(func, 100)] of lodash, which is not
    among the sources ("a debounced state update (~100ms)", "standard
    debounce-supersedes-previous semantics").  A debounced function holds
    at most one pending call: calling it replaces the pending call and
    restarts the wait; once the wait has run out with no further call,
    [func] runs once, on the arguments of the last call.  The component
    makes one debounced function per slider group ([useMemo] with no
    dependencies), shared by all sliders of the group.  The clock is not
    modelled: [elapse] is the event that the wait of a group ran out. *)
Record Page : Type := mkPage {
  react : State;
  pendingInputs : option (string * R);
  pendingWeights : option (string * R);
  pendingBiases : option (string * R);
}.

(** Modelled from the spec: a call of the debounced function of a group
    becomes its pending call, in place of the one pending before. *)
Definition debouncedSetInputs (key : string) (newValue : R) (p : Page) : Page :=
  {| react := react p; pendingInputs := Some (key, newValue);
     pendingWeights := pendingWeights p; pendingBiases := pendingBiases p |}.

Definition debouncedSetWeights (key : string) (newValue : R) (p : Page) : Page :=
  {| react := react p; pendingInputs := pendingInputs p;
     pendingWeights := Some (key, newValue); pendingBiases := pendingBiases p |}.

Definition debouncedSetBiases (key : string) (newValue : R) (p : Page) : Page :=
  {| react := react p; pendingInputs := pendingInputs p;
     pendingWeights := pendingWeights p; pendingBiases := Some (key, newValue) |}.

(** Modelled from the spec: the wait of the debounced function of group
    [g] runs out, and its pending call, if any, runs the callback. *)
Definition elapse (g : group) (p : Page) : Page :=
  match g with
  | Inputs =>
      match pendingInputs p with
      | Some (key, newValue) =>
          {| react := inputsCallback key newValue (react p);
             pendingInputs := None;
             pendingWeights := pendingWeights p;
             pendingBiases := pendingBiases p |}
      | None => p
      end
  | Weights =>
      match pendingWeights p with
      | Some (key, newValue) =>
          {| react := weightsCallback key newValue (react p);
             pendingInputs := pendingInputs p;
             pendingWeights := None;
             pendingBiases := pendingBiases p |}
      | None => p
      end
  | Biases =>
      match pendingBiases p with
      | Some (key, newValue) =>
          {| react := biasesCallback key newValue (react p);
             pendingInputs := pendingInputs p;
             pendingWeights := pendingWeights p;
             pendingBiases := None |}
      | None => p
      end
  end.

(** The [onChange] of a slider: a call of the debounced function of its
    group. *)
Definition slide (c : change) : Page -> Page :=
  match target c with
  | Inputs => debouncedSetInputs (property c) (value c)
  | Weights => debouncedSetWeights (property c) (value c)
  | Biases => debouncedSetBiases (property c) (value c)
  end.

(** A slider change whose wait runs out before anything else happens. *)
Definition land (c : change) (p : Page) : Page := elapse (target c) (slide c p).

(** A page with no call pending. *)
Definition idle (st : State) : Page := mkPage st None None None.

(** *** Colour scales *)

(** A CSS colour string, by the numbers its template literal prints. *)
Inductive color : Type :=
| rgba (red green blue alpha : JS.num)
| rgb (red green blue : JS.num)
| css (s : string).

Definition getWeightColor (weight : JS.num) : color :=
  let intensity := Math.min (Math.abs weight) 1 in
  if (weight >? 0)%js then
    rgba 0 (150 + 105 * intensity)%js 0 intensity
  else if (weight <? 0)%js then
    rgba (150 + 105 * intensity)%js 0 0 intensity
  else
    rgba 100 100 100 (JS.Num 0.5).

Module Channels.
Record t : Type := mk { r : JS.num; g : JS.num; b : JS.num }.
End Channels.

Definition startColor : Channels.t := Channels.mk 255 249 196.
Definition endColor : Channels.t := Channels.mk 255 152 0.

Definition getActivationColor (activation : JS.num) : color :=
  let r := Math.round (Channels.r startColor
             + (Channels.r endColor - Channels.r startColor) * activation)%js in
  let g := Math.round (Channels.g startColor
             + (Channels.g endColor - Channels.g startColor) * activation)%js in
  let b := Math.round (Channels.b startColor
             + (Channels.b endColor - Channels.b startColor) * activation)%js in
  rgb r g b.

(** *** The canvas *)

(** Text handed to [fillText]. *)
Inductive text : Type :=
| Str (s : string)
| Fixed2 (n : JS.num)                      (* [n.toFixed(2)] *)
| Template (prefix : string) (t : text).   (* [`prefix${t}`] *)

(** A value of [ctx.font]: weight, size in pixels, font families. *)
Record font : Type := Font {
  font_weight : string;
  font_px : Z;
  font_family : list string;
}.

Definition openSans (weight : string) (px : Z) : font :=
  Font weight px ["Open Sans"; "sans-serif"].

(** What a 2D context receives: property assignments and method calls. *)
Inductive cmd : Type :=
| SetFillStyle (c : color)
| SetStrokeStyle (c : color)
| SetFont (f : font)
| SetTextAlign (a : string)
| SetTextBaseline (a : string)
| SetLineWidth (w : JS.num)
| Scale (sx sy : JS.num)
| ClearRect (x y w h : JS.num)
| FillText (t : text) (x y : JS.num)
| BeginPath
| MoveTo (x y : JS.num)
| LineTo (x y : JS.num)
| Arc (x y radius startAngle endAngle : JS.num)
| Stroke
| Fill.

(** A number with its fraction dropped (rounded toward zero). *)
Definition truncate (r : R) : Z :=
  if Rle_dec 0 r then Zfloor r else Zceil r.

(** A number converted to an [unsigned long]: truncated and taken modulo
    2^32, 0 for [NaN]. *)
Definition ToUint32 (n : JS.num) : Z :=
  match n with
  | JS.Num r => truncate r mod 2 ^ 32
  | JS.NaN => 0
  end.

(** Assigning to [canvas.width] or [canvas.height], attributes of type
    [unsigned long] limited to non-negative numbers: a converted value
    above 2^31 - 1 is replaced by the default of the attribute. *)
Definition setSize (default : Z) (n : JS.num) : Z :=
  let u := ToUint32 n in
  if decide (u <= 2147483647) then u else default.

(** A canvas element: its two size attributes, whole numbers of pixels,
    and what [getContext('2d')] returns, [None] for [null]; a context is
    the log of what it has received, oldest first. *)
Record Canvas : Type := mkCanvas {
  width : Z;
  height : Z;
  getContext2d : option (list cmd);
}.

(** What [drawNetwork] reaches besides the React state. *)
Record World : Type := mkWorld {
  canvasRef_current : option Canvas;
  window_devicePixelRatio : option R;
}.

(** Code that draws: it extends the log and either returns a value or
    throws a [TypeError] ([None]), keeping what was drawn before. *)
Definition Draw (A : Type) : Type := list cmd -> option A * list cmd.

#[global] Instance Draw_ret : MRet Draw := fun A a ctx => (Some a, ctx).

#[global] Instance Draw_bind : MBind Draw := fun A B k m ctx =>
  match m ctx with
  | (Some a, ctx') => k a ctx'
  | (None, ctx') => (None, ctx')
  end.

Definition throw {A} : Draw A := fun ctx => (None, ctx).

Definition call (c : cmd) : Draw unit := fun ctx => (Some tt, ctx ++ [c]).

(** [Array.prototype.forEach] with a drawing callback. *)
Fixpoint forEach {A} (l : list A) (f : A -> Draw unit) : Draw unit :=
  match l with
  | [] => mret tt
  | a :: l' => f a ;; forEach l' f
  end.

(** [v.toFixed(2)]: a [TypeError] when [v] is [undefined]. *)
Definition toFixed2 (v : option JS.num) : Draw text :=
  match v with
  | Some n => mret (Fixed2 n)
  | None => throw
  end.

(** A value used as a number: [undefined] becomes [NaN]. *)
Definition asNumber (v : option JS.num) : JS.num :=
  match v with
  | Some n => n
  | None => JS.NaN
  end.

Module Pos.
Record t : Type := mk { x : JS.num; y : JS.num; label : string }.
End Pos.

Definition nodeRadius : JS.num := 30.

Definition nodes_A : Pos.t := Pos.mk 150 150 "Input A".
Definition nodes_B : Pos.t := Pos.mk 150 350 "Input B".
Definition nodes_H1 : Pos.t := Pos.mk 400 150 "Hidden Neuron 1".
Definition nodes_H2 : Pos.t := Pos.mk 400 350 "Hidden Neuron 2".
Definition nodes_O : Pos.t := Pos.mk 650 250 "Output Neuron".

(** [Object.entries(nodes)], in insertion order. *)
Definition nodes : list (string * Pos.t) :=
  [("A", nodes_A); ("B", nodes_B); ("H1", nodes_H1); ("H2", nodes_H2);
   ("O", nodes_O)].

Record Connection : Type := mkConnection {
  start : Pos.t;
  end_ : Pos.t;
  weight : option JS.num;
}.

Definition connections (st : State) : list Connection :=
  let w (key : string) := JS.Num <$> (weights st !! key) in
  [ mkConnection nodes_A nodes_H1 (w "A->H1");
    mkConnection nodes_A nodes_H2 (w "A->H2");
    mkConnection nodes_B nodes_H1 (w "B->H1");
    mkConnection nodes_B nodes_H2 (w "B->H2");
    mkConnection nodes_H1 nodes_O (w "H1->O");
    mkConnection nodes_H2 nodes_O (w "H2->O") ].

(** The callback of [connections.forEach]. *)
Definition drawConnection (c : Connection) : Draw unit :=
  call BeginPath ;;
  call (SetStrokeStyle (getWeightColor (asNumber (weight c)))) ;;
  call (MoveTo (Pos.x (start c) + nodeRadius)%js (Pos.y (start c))) ;;
  call (LineTo (Pos.x (end_ c) - nodeRadius)%js (Pos.y (end_ c))) ;;
  call Stroke ;;
  let midX := ((Pos.x (start c) + Pos.x (end_ c)) / 2)%js in
  let midY := ((Pos.y (start c) + Pos.y (end_ c)) / 2)%js in
  call (SetFillStyle (css "#333")) ;;
  call (SetTextAlign "center") ;;
  t ← toFixed2 (weight c);
  call (FillText t midX (midY - 10)%js).

(** [key === 'A' || key === 'B' ? inputs[key] : nodeActivations[key]] *)
Definition nodeValue (st : State) (nodeActivations : Activations)
    (key : string) : option JS.num :=
  if decide (key = "A" \/ key = "B") then JS.Num <$> (inputs st !! key)
  else activation_get nodeActivations key.

(** The callback of [Object.entries(nodes).forEach]. *)
Definition drawNode (st : State) (nodeActivations : Activations)
    (entry : string * Pos.t) : Draw unit :=
  let '(key, pos) := entry in
  call BeginPath ;;
  call (Arc (Pos.x pos) (Pos.y pos) nodeRadius 0 (JS.Num PI * 2)%js) ;;
  let activation := nodeValue st nodeActivations key in
  call (SetFillStyle (getActivationColor (asNumber activation))) ;;
  call Fill ;;
  call (SetStrokeStyle (css "#333")) ;;
  call (SetLineWidth 2) ;;
  call Stroke ;;
  call (SetFillStyle (css "#333")) ;;
  call (SetFont (openSans "" 16)) ;;
  call (SetTextAlign "center") ;;
  call (SetTextBaseline "bottom") ;;
  call (FillText (Str (Pos.label pos)) (Pos.x pos)
          (Pos.y pos - nodeRadius - 10)%js) ;;
  call (SetFont (openSans "" 14)) ;;
  call (SetTextAlign "center") ;;
  call (SetTextBaseline "top") ;;
  labelText ←
    (if decide (key = "A" \/ key = "B")
     then t ← toFixed2 (JS.Num <$> (inputs st !! key));
          mret (Template "Value: " t)
     else t ← toFixed2 activation; mret (Template "Activation: " t));
  call (FillText labelText (Pos.x pos) (Pos.y pos + nodeRadius + 10)%js).

(** [drawNetwork] after its two guards, on the context [ctx]. *)
Definition drawScene (st : State) (devicePixelRatio : JS.num) : Draw unit :=
  let logicalWidth : JS.num := 800 in
  let logicalHeight : JS.num := 500 in
  call (Scale devicePixelRatio devicePixelRatio) ;;
  call (ClearRect 0 0 logicalWidth logicalHeight) ;;
  call (SetFillStyle (css "#333")) ;;
  call (SetFont (openSans "bold" 20)) ;;
  call (SetTextAlign "center") ;;
  call (FillText (Str "Input Layer") (Pos.x nodes_A) 40) ;;
  call (FillText (Str "Hidden Layer") (Pos.x nodes_H1) 40) ;;
  call (FillText (Str "Output Layer") (Pos.x nodes_O) 40) ;;
  call (SetLineWidth 3) ;;
  call (SetFont (openSans "" 12)) ;;
  forEach (connections st) drawConnection ;;
  let nodeActivations := calculateActivations st in
  forEach nodes (drawNode st nodeActivations).

(** How a call ends. *)
Inductive completion : Type := Returned | ThrewTypeError.

(** [drawNetwork], with [activations] the memoised
    [calculateActivations ()] of the same render. *)
Definition drawNetwork (st : State) (w : World) : completion * World :=
  match canvasRef_current w with
  | None => (Returned, w)
  | Some canvas =>
      match getContext2d canvas with
      | None => (Returned, w)
      | Some ctx =>
          let devicePixelRatio :=
            JS.Num (JS.or_else (window_devicePixelRatio w) 1) in
          let logicalWidth : JS.num := 800 in
          let logicalHeight : JS.num := 500 in
          let '(r, ctx') := drawScene st devicePixelRatio ctx in
          (match r with Some _ => Returned | None => ThrewTypeError end,
           {| canvasRef_current :=
                Some {| width :=
                          setSize 300 (logicalWidth * devicePixelRatio)%js;
                        height :=
                          setSize 150 (logicalHeight * devicePixelRatio)%js;
                        getContext2d := Some ctx' |};
              window_devicePixelRatio := window_devicePixelRatio w |})
      end
  end.

(** ** Vocabulary of the statements *)

(** The function the specification names: [1/(1+e^-x)]. *)
Definition sigma (x : R) : R := (1 / (1 + Rtrigo_def.exp (- x)))%R.

(** The [i]-th term, without its sign, of the series of [e^-x]. *)
Definition exp_term (x : R) (i : nat) : R := (x ^ i / INR (fact i))%R.

(** The eleven properties that [calculateActivations] reads. *)
Definition inputKeys : list string := ["A"; "B"].
Definition weightKeys : list string :=
  ["A->H1"; "A->H2"; "B->H1"; "B->H2"; "H1->O"; "H2->O"].
Definition biasKeys : list string := ["H1"; "H2"; "O"].

Definition defined_on (keys : list string) (o : object) : Prop :=
  Forall (fun k => is_Some (o !! k)) keys.

(** Every slider of the page has its property: the shape of the state on
    the first render, which no update of the component undoes. *)
Definition complete (st : State) : Prop :=
  defined_on inputKeys (inputs st)
  /\ defined_on weightKeys (weights st)
  /\ defined_on biasKeys (biases st).

(** A finite number in the closed interval from 0 to 1. *)
Definition in_unit_interval (a : JS.num) : Prop :=
  JS.isFinite a /\ JS.Le 0 a /\ JS.Le a 1.

Definition activations_in_range (acts : Activations) : Prop :=
  in_unit_interval (H1 acts) /\ in_unit_interval (H2 acts)
  /\ in_unit_interval (O acts).

(** A state at the ends of the slider ranges: inputs at 1, weights at 1
    and -1, biases at 2 and -2. *)
Definition boundaryState : State := {|
  weights := {[ "A->H1" := 1%R; "A->H2" := (-1)%R; "B->H1" := 1%R;
                "B->H2" := (-1)%R; "H1->O" := (-1)%R; "H2->O" := 1%R ]};
  biases := {[ "H1" := 2%R; "H2" := (-2)%R; "O" := 2%R ]};
  inputs := {[ "A" := 1%R; "B" := 1%R ]};
  isFloating := false;
  dragPosition := (0%R, 0%R);
|}.

(** Linear interpolation from [s] (at 0) to [e] (at 1). *)
Definition lerp (s e a : R) : R := (s + (e - s) * a)%R.

(** Drawing code that never throws: it returns, having extended the log. *)
Definition succeeds (m : Draw unit) : Prop :=
  forall ctx, exists log, m ctx = (Some tt, ctx ++ log).

(** Drawing code that only ever adds to the log. *)
Definition extends {A} (m : Draw A) : Prop :=
  forall ctx, exists log, (m ctx).2 = ctx ++ log.

(** ** The floating canvas and the events of the page *)

Definition setIsFloating (b : bool) (st : State) : State :=
  {| weights := weights st; biases := biases st; inputs := inputs st;
     isFloating := b; dragPosition := dragPosition st |}.

Definition setDragPosition (p : R * R) (st : State) : State :=
  {| weights := weights st; biases := biases st; inputs := inputs st;
     isFloating := isFloating st; dragPosition := p |}.

(** The callback of the [IntersectionObserver], on [entry.isIntersecting]. *)
Definition observerCallback (isIntersecting : bool) (st : State) : State :=
  if negb isIntersecting then setIsFloating true st
  else setIsFloating false st.

(** [onDrag], on the [x] and [y] of [data]. *)
Definition onDrag (data : R * R) (st : State) : State :=
  if isFloating st then setDragPosition (data.1, data.2) st else st.

(** [handleReturn]: its two setters; the [scrollIntoView] that follows is
    an effect on the page, outside the state. *)
Definition handleReturn (st : State) : State :=
  setIsFloating false (setDragPosition (0%R, 0%R) st).

(** The [position] handed to [Draggable]. *)
Definition draggablePosition (st : State) : R * R :=
  if isFloating st then dragPosition st else (0%R, 0%R).

(** The object a slider group edits, and the [min] and [max] of its
    sliders. *)
Definition group_object (g : group) (st : State) : object :=
  match g with
  | Inputs => inputs st
  | Weights => weights st
  | Biases => biases st
  end.

Definition slider_min (g : group) : R :=
  match g with
  | Inputs => 0%R
  | Weights => (-1)%R
  | Biases => (-2)%R
  end.

Definition slider_max (g : group) : R :=
  match g with
  | Inputs => 1%R
  | Weights => 1%R
  | Biases => 2%R
  end.

(** What happens to the state of the component; [SliderChange c] is a
    slider change landing, after the wait of its debounce. *)
Inductive event : Type :=
| SliderChange (c : change)
| ResetClick
| Intersection (isIntersecting : bool)
| Drag (data : R * R)
| ReturnClick.

Definition dispatch (e : event) (st : State) : State :=
  match e with
  | SliderChange c => apply_change c st
  | ResetClick => resetAll st
  | Intersection isIntersecting => observerCallback isIntersecting st
  | Drag data => onDrag data st
  | ReturnClick => handleReturn st
  end.

(** A slider exists for each entry of its object ([Object.entries(...)
    .map]) and hands over a value between its [min] and [max]. *)
Definition enabled (e : event) (st : State) : Prop :=
  match e with
  | SliderChange c =>
      is_Some (group_object (target c) st !! property c)
      /\ (slider_min (target c) <= value c <= slider_max (target c))%R
  | _ => True
  end.

(** The states of the component: the first render, then any events. *)
Inductive reachable : State -> Prop :=
| reachable_initial : reachable initialState
| reachable_dispatch st e :
    reachable st -> enabled e st -> reachable (dispatch e st).

(** Every value of an object lies between [lo] and [hi]. *)
Definition within (lo hi : R) (o : object) : Prop :=
  map_Forall (fun _ v => (lo <= v <= hi)%R) o.

(** The objects have exactly the properties of the first render, with
    values in the slider ranges. *)
Definition slider_invariant (st : State) : Prop :=
  dom (inputs st) = list_to_set inputKeys
  /\ dom (weights st) = list_to_set weightKeys
  /\ dom (biases st) = list_to_set biasKeys
  /\ within 0 1 (inputs st)
  /\ within (-1) 1 (weights st)
  /\ within (-2) 2 (biases st).

(** Drawing code that always throws. *)
Definition fails {A} (m : Draw A) : Prop :=
  forall ctx, (m ctx).1 = None.

(** Drawing code whose outcome and additions to the log do not depend on
    what the log already holds. *)
Definition uniform {A} (m : Draw A) : Prop :=
  forall ctx, m ctx = ((m []).1, ctx ++ (m []).2).

(** The line segments of a log: a stroke style, a [moveTo], a [lineTo]
    and a [stroke] in a row. *)
Fixpoint segments (log : list cmd)
    : list (color * (JS.num * JS.num) * (JS.num * JS.num)) :=
  match log with
  | [] => []
  | c :: rest =>
      match c, rest with
      | SetStrokeStyle col, MoveTo x0 y0 :: LineTo x1 y1 :: Stroke :: _ =>
          (col, (x0, y0), (x1, y1)) :: segments rest
      | _, _ => segments rest
      end
  end.

(** The filled discs of a log: a full-circle [arc], a fill style and a
    [fill] in a row. *)
Fixpoint discs (log : list cmd)
    : list (JS.num * JS.num * JS.num * color) :=
  match log with
  | [] => []
  | c :: rest =>
      match c, rest with
      | Arc x y radius _ _, SetFillStyle col :: Fill :: _ =>
          (x, y, radius, col) :: discs rest
      | _, _ => discs rest
      end
  end.

(** A colour with its red and green channels exchanged. *)
Definition swap_red_green (c : color) : color :=
  match c with
  | rgba r g b a => rgba g r b a
  | rgb r g b => rgb g r b
  | css s => css s
  end.

(** The properties of each object that an activation is computed from. *)
Definition reads_H1 (g : group) : list string :=
  match g with
  | Inputs => ["A"; "B"]
  | Weights => ["A->H1"; "B->H1"]
  | Biases => ["H1"]
  end.

Definition reads_H2 (g : group) : list string :=
  match g with
  | Inputs => ["A"; "B"]
  | Weights => ["A->H2"; "B->H2"]
  | Biases => ["H2"]
  end.

Definition reads_O (g : group) : list string :=
  match g with
  | Inputs => inputKeys
  | Weights => weightKeys
  | Biases => biasKeys
  end.

(** The two swatches of the legend above the canvas. *)
Definition legendPositive : color := rgba 0 255 0 (JS.Num 0.8).
Definition legendNegative : color := rgba 255 0 0 (JS.Num 0.8).

(** What a connection with a weight sends to the context, and what a
    node with a value sends. *)
Definition connection_log (c : Connection) : list cmd :=
  [ BeginPath;
    SetStrokeStyle (getWeightColor (asNumber (weight c)));
    MoveTo (Pos.x (start c) + nodeRadius)%js (Pos.y (start c));
    LineTo (Pos.x (end_ c) - nodeRadius)%js (Pos.y (end_ c));
    Stroke;
    SetFillStyle (css "#333");
    SetTextAlign "center";
    FillText (Fixed2 (asNumber (weight c)))
      ((Pos.x (start c) + Pos.x (end_ c)) / 2)%js
      ((Pos.y (start c) + Pos.y (end_ c)) / 2 - 10)%js ].

Definition node_log (st : State) (entry : string * Pos.t) : list cmd :=
  let value := asNumber (nodeValue st (calculateActivations st) entry.1) in
  [ BeginPath;
    Arc (Pos.x entry.2) (Pos.y entry.2) nodeRadius 0 (JS.Num PI * 2)%js;
    SetFillStyle (getActivationColor value);
    Fill;
    SetStrokeStyle (css "#333");
    SetLineWidth 2;
    Stroke;
    SetFillStyle (css "#333");
    SetFont (openSans "" 16);
    SetTextAlign "center";
    SetTextBaseline "bottom";
    FillText (Str (Pos.label entry.2)) (Pos.x entry.2)
      (Pos.y entry.2 - nodeRadius - 10)%js;
    SetFont (openSans "" 14);
    SetTextAlign "center";
    SetTextBaseline "top";
    FillText
      (Template (if decide (entry.1 = "A" \/ entry.1 = "B")
                 then "Value: " else "Activation: ")
         (Fixed2 value))
      (Pos.x entry.2) (Pos.y entry.2 + nodeRadius + 10)%js ].

(** The stroked segment of a connection and the filled disc of a node. *)
Definition segment_of (c : Connection)
    : color * (JS.num * JS.num) * (JS.num * JS.num) :=
  (getWeightColor (asNumber (weight c)),
   ((Pos.x (start c) + nodeRadius)%js, Pos.y (start c)),
   ((Pos.x (end_ c) - nodeRadius)%js, Pos.y (end_ c))).

Definition disc_of (st : State) (entry : string * Pos.t)
    : JS.num * JS.num * JS.num * color :=
  (Pos.x entry.2, Pos.y entry.2, nodeRadius,
   getActivationColor
     (asNumber (nodeValue st (calculateActivations st) entry.1))).

(** [hay.includes(needle)]. *)
Definition includes (needle hay : string) : bool :=
  match String.index 0 needle hay with
  | Some _ => true
  | None => false
  end.

(** The weights that get a slider in the section of the hidden layer
    ([Object.entries(weights).filter(([k]) => k.includes('->H'))]) and in
    the section of the output neuron ([k.includes('->O')]). *)
Definition hiddenWeightSliders (st : State) : gset string :=
  filter (fun k => includes "->H" k = true) (dom (weights st)).

Definition outputWeightSliders (st : State) : gset string :=
  filter (fun k => includes "->O" k = true) (dom (weights st)).

(** ** The sigmoid on the reals *)

Section Sigma.
Local Open Scope R_scope.

Lemma sigma_denominator_pos x : 1 < 1 + Rtrigo_def.exp (- x).
Proof. pose proof (exp_pos (- x)). lra. Qed.

Lemma sigma_pos x : 0 < sigma x.
Proof.
  unfold sigma. pose proof (sigma_denominator_pos x).
  apply Rdiv_lt_0_compat; lra.
Qed.

Lemma sigma_lt_1 x : sigma x < 1.
Proof.
  unfold sigma. pose proof (sigma_denominator_pos x).
  apply (Rmult_lt_reg_r (1 + Rtrigo_def.exp (- x))); [lra|].
  field_simplify; lra.
Qed.

Lemma sigma_0 : sigma 0 = 0.5.
Proof. unfold sigma. rewrite Ropp_0, exp_0. lra. Qed.

Lemma sigma_increasing x y : x < y -> sigma x < sigma y.
Proof.
  intros Hxy. unfold sigma.
  pose proof (exp_pos (- x)). pose proof (exp_pos (- y)).
  assert (Rtrigo_def.exp (- y) < Rtrigo_def.exp (- x))
    by (apply exp_increasing; lra).
  unfold Rdiv. rewrite !Rmult_1_l.
  apply Rinv_lt_contravar; [nra | lra].
Qed.

(** Partial sums of the series of [e^-x] bracket it, for [0 <= x <= 1]. *)

Lemma exp_term_decreasing x : 0 <= x <= 1 -> Un_decreasing (exp_term x).
Proof.
  intros [Hx0 Hx1] n. unfold exp_term.
  assert (Hf : 0 < INR (fact n)) by apply INR_fact_lt_0.
  assert (Hp : 0 <= x ^ n) by (apply pow_le; lra).
  assert (Hn : 0 <= INR n) by apply pos_INR.
  rewrite fact_simpl, mult_INR, S_INR. simpl.
  apply (Rmult_le_reg_r ((INR n + 1) * INR (fact n))); [nra|].
  field_simplify; [|lra|lra].
  nra.
Qed.

Lemma exp_neg_series x :
  Un_cv (fun n => sum_f_R0 (tg_alt (exp_term x)) n) (Rtrigo_def.exp (- x)).
Proof.
  unfold Rtrigo_def.exp. destruct (exist_exp (- x)) as [l Hl]. simpl.
  intros eps Heps. destruct (Hl eps Heps) as [n0 Hn0].
  exists n0. intros n Hn.
  replace (sum_f_R0 (tg_alt (exp_term x)) n)
    with (sum_f_R0 (fun i => / INR (fact i) * (- x) ^ i) n);
    [exact (Hn0 n Hn)|].
  apply sum_eq. intros i _. unfold tg_alt, exp_term.
  replace (- x) with (-1 * x) by ring.
  rewrite Rpow_mult_distr. unfold Rdiv. ring.
Qed.

Lemma exp_neg_bracket x n :
  0 <= x <= 1 ->
  sum_f_R0 (tg_alt (exp_term x)) (S (2 * n)) <= Rtrigo_def.exp (- x)
    <= sum_f_R0 (tg_alt (exp_term x)) (2 * n).
Proof.
  intros Hx. apply alternated_series_ineq.
  - apply exp_term_decreasing, Hx.
  - exact (cv_speed_pow_fact x).
  - apply exp_neg_series.
Qed.

Lemma exp_neg_half_bounds :
  0.60651 < Rtrigo_def.exp (- (0.5)) < 0.60654.
Proof.
  assert (Hx : 0 <= 0.5 <= 1) by lra.
  destruct (exp_neg_bracket 0.5 3 Hx) as [Hlo Hhi].
  unfold tg_alt, exp_term in Hlo, Hhi. simpl in Hlo, Hhi.
  split; lra.
Qed.

Lemma sigma_half_bounds : 0.62245 < sigma 0.5 < 0.62255.
Proof.
  unfold sigma. destruct exp_neg_half_bounds as [Hlo Hhi].
  set (e := Rtrigo_def.exp (- (0.5))) in *.
  split.
  - apply (Rmult_lt_reg_r (1 + e)); [lra|]. field_simplify; lra.
  - apply (Rmult_lt_reg_r (1 + e)); [lra|]. field_simplify; lra.
Qed.

End Sigma.

(** ** Properties of the feed-forward pass *)

Lemma sigmoid_Num (x : R) : sigmoid (JS.Num x) = JS.Num (sigma x).
Proof.
  unfold sigmoid, sigma, lit. cbn.
  destruct (Req_dec_T _ _) as [E|_]; [|reflexivity].
  pose proof (sigma_denominator_pos x). lra.
Qed.

Lemma sigmoid_NaN : sigmoid JS.NaN = JS.NaN.
Proof. reflexivity. Qed.

#[local] Arguments sigmoid : simpl never.

(** ** The sigmoid in binary64 *)

Section Binary64.
Local Open Scope R_scope.










#[local] Arguments pow : simpl never.











End Binary64.

Section FeedForward.
Local Open Scope R_scope.

Lemma calculateActivations_eq st A B wAH1 wBH1 wAH2 wBH2 wH1O wH2O bH1 bH2 bO :
  inputs st !! "A" = Some A -> inputs st !! "B" = Some B ->
  weights st !! "A->H1" = Some wAH1 -> weights st !! "B->H1" = Some wBH1 ->
  weights st !! "A->H2" = Some wAH2 -> weights st !! "B->H2" = Some wBH2 ->
  weights st !! "H1->O" = Some wH1O -> weights st !! "H2->O" = Some wH2O ->
  biases st !! "H1" = Some bH1 -> biases st !! "H2" = Some bH2 ->
  biases st !! "O" = Some bO ->
  calculateActivations st =
    {| H1 := JS.Num (sigma (A * wAH1 + B * wBH1 + bH1));
       H2 := JS.Num (sigma (A * wAH2 + B * wBH2 + bH2));
       O := JS.Num (sigma (sigma (A * wAH1 + B * wBH1 + bH1) * wH1O
                           + sigma (A * wAH2 + B * wBH2 + bH2) * wH2O
                           + bO)) |}.
Proof.
  intros HA HB H1 H2 H3 H4 H5 H6 H7 H8 H9.
  unfold calculateActivations.
  rewrite HA, HB, H1, H2, H3, H4, H5, H6, H7, H8, H9. cbn.
  rewrite !sigmoid_Num. cbn. rewrite !sigmoid_Num. reflexivity.
Qed.

Lemma in_unit_interval_sigma x : in_unit_interval (JS.Num (sigma x)).
Proof.
  pose proof (sigma_pos x). pose proof (sigma_lt_1 x).
  unfold in_unit_interval, lit; cbn. repeat split; lra.
Qed.

Lemma complete_in_range st :
  complete st -> activations_in_range (calculateActivations st).
Proof.
  intros (Hi & Hw & Hb).
  unfold defined_on, inputKeys, weightKeys, biasKeys in *.
  repeat match goal with
         | H : Forall _ (_ :: _) |- _ => apply Forall_cons in H; destruct H
         | H : is_Some _ |- _ => destruct H
         end.
  erewrite calculateActivations_eq by eassumption.
  repeat split; apply in_unit_interval_sigma.
Qed.

Lemma defined_on_insert keys (o : object) k v :
  defined_on keys o -> defined_on keys (<[k := v]> o).
Proof.
  unfold defined_on. intros H. eapply Forall_impl; [exact H|].
  cbn. intros j Hj.
  destruct (decide (k = j)) as [->|Hne].
  - rewrite lookup_insert_eq. eauto.
  - rewrite lookup_insert_ne by done. exact Hj.
Qed.

Lemma complete_apply_change c st : complete st -> complete (apply_change c st).
Proof.
  intros (Hi & Hw & Hb). unfold apply_change.
  destruct (target c); repeat split; cbn;
    auto using defined_on_insert.
Qed.

Lemma complete_initialState : complete initialState.
Proof.
  repeat split; cbn; repeat constructor; eexists; reflexivity.
Qed.

Lemma complete_resetAll st : complete (resetAll st).
Proof.
  repeat split; cbn; repeat constructor; eexists; reflexivity.
Qed.

(** C1: for all inputs, weights and biases, [calculateActivations]
    returns h1 = sigmoid(A*wAH1 + B*wBH1 + bH1),
    h2 = sigmoid(A*wAH2 + B*wBH2 + bH2) and
    o = sigmoid(h1*wH1O + h2*wH2O + bO), where sigmoid is [sigma],
    that is 1/(1+e^-x). *)
Theorem C1_calculateActivations_formula
    st A B wAH1 wBH1 wAH2 wBH2 wH1O wH2O bH1 bH2 bO :
  inputs st !! "A" = Some A -> inputs st !! "B" = Some B ->
  weights st !! "A->H1" = Some wAH1 -> weights st !! "B->H1" = Some wBH1 ->
  weights st !! "A->H2" = Some wAH2 -> weights st !! "B->H2" = Some wBH2 ->
  weights st !! "H1->O" = Some wH1O -> weights st !! "H2->O" = Some wH2O ->
  biases st !! "H1" = Some bH1 -> biases st !! "H2" = Some bH2 ->
  biases st !! "O" = Some bO ->
  exists h1 h2 o,
    calculateActivations st
      = {| H1 := JS.Num h1; H2 := JS.Num h2; O := JS.Num o |}
    /\ h1 = sigma (A * wAH1 + B * wBH1 + bH1)
    /\ h2 = sigma (A * wAH2 + B * wBH2 + bH2)
    /\ o = sigma (h1 * wH1O + h2 * wH2O + bO)
    /\ (forall x, sigmoid (JS.Num x) = JS.Num (sigma x))
    /\ (forall x, sigma x = 1 / (1 + Rtrigo_def.exp (- x))).
Proof.
  intros. do 3 eexists.
  split; [eapply calculateActivations_eq; eassumption|].
  repeat split; auto using sigmoid_Num.
Qed.

Lemma C1_calculateActivations_formula_witness :
  exists h1 h2 o,
    calculateActivations boundaryState
      = {| H1 := JS.Num h1; H2 := JS.Num h2; O := JS.Num o |}
    /\ h1 = sigma (1 * 1 + 1 * 1 + 2)
    /\ h2 = sigma (1 * -1 + 1 * -1 + -2)
    /\ o = sigma (h1 * -1 + h2 * 1 + 2)
    /\ (forall x, sigmoid (JS.Num x) = JS.Num (sigma x))
    /\ (forall x, sigma x = 1 / (1 + Rtrigo_def.exp (- x))).
Proof.
  apply (C1_calculateActivations_formula boundaryState); reflexivity.
Defined.

(** C4: in the default state (inputs 0, weights 0.5, biases 0) the
    pass returns h1 = h2 = sigmoid(0) = 0.5 and
    o = sigmoid(0.5*0.5 + 0.5*0.5) = sigmoid(0.5), which is 0.6225 to
    four decimal places.  The default state is the state of the first
    render and the state after [resetAll]. *)
Theorem C4_default_activations :
  H1 (calculateActivations initialState) = sigmoid 0%Z
  /\ H2 (calculateActivations initialState) = sigmoid 0%Z
  /\ sigmoid 0%Z = JS.Num 0.5
  /\ O (calculateActivations initialState)
      = sigmoid (JS.Num (0.5 * 0.5 + 0.5 * 0.5))
  /\ sigmoid (JS.Num (0.5 * 0.5 + 0.5 * 0.5)) = sigmoid (JS.Num 0.5)
  /\ (exists o, O (calculateActivations initialState) = JS.Num o
                /\ 0.62245 < o < 0.62255)
  /\ (forall st,
        calculateActivations (resetAll st)
        = calculateActivations initialState).
Proof.
  assert (E : calculateActivations initialState
              = {| H1 := JS.Num (sigma (0 * 0.5 + 0 * 0.5 + 0));
                   H2 := JS.Num (sigma (0 * 0.5 + 0 * 0.5 + 0));
                   O := JS.Num (sigma (sigma (0 * 0.5 + 0 * 0.5 + 0) * 0.5
                                       + sigma (0 * 0.5 + 0 * 0.5 + 0) * 0.5
                                       + 0)) |})
    by (apply calculateActivations_eq; reflexivity).
  assert (Z0 : 0 * 0.5 + 0 * 0.5 + 0 = 0) by lra.
  rewrite Z0, sigma_0 in E. rewrite E. cbn. unfold lit.
  rewrite !sigmoid_Num, sigma_0.
  assert (Hh : 0.5 * 0.5 + 0.5 * 0.5 + 0 = 0.5) by lra.
  assert (Hh' : 0.5 * 0.5 + 0.5 * 0.5 = 0.5) by lra.
  rewrite Hh, Hh'.
  repeat split; try reflexivity.
  - exists (sigma 0.5). split; [reflexivity | apply sigma_half_bounds].
  - intros st.
    rewrite (calculateActivations_eq (resetAll st) 0 0 0.5 0.5 0.5 0.5
               0.5 0.5 0 0 0) by reflexivity.
    rewrite Z0, sigma_0, Hh. reflexivity.
Qed.

(** C5: for every assignment of the inputs, weights and biases, the
    range boundaries among them, h1, h2 and o are finite and lie in
    [0,1]; this still holds after any slider change and after a
    reset. *)
Theorem C5_activations_in_range st :
  complete st ->
  activations_in_range (calculateActivations st)
  /\ (forall c,
        activations_in_range (calculateActivations (apply_change c st)))
  /\ activations_in_range (calculateActivations (resetAll st)).
Proof.
  intros Hst. split; [|split].
  - apply complete_in_range, Hst.
  - intros c. apply complete_in_range, complete_apply_change, Hst.
  - apply complete_in_range, complete_resetAll.
Qed.

Lemma C5_activations_in_range_witness :
  activations_in_range (calculateActivations boundaryState)
  /\ (forall c,
        activations_in_range
          (calculateActivations (apply_change c boundaryState)))
  /\ activations_in_range (calculateActivations (resetAll boundaryState)).
Proof.
  apply (C5_activations_in_range boundaryState).
  repeat split; cbn; repeat constructor; eexists; reflexivity.
Defined.

End FeedForward.


(** ** Properties of the state updates *)

Section Updates.
Local Open Scope R_scope.

(** Reads a property of an object literal, whatever the key. *)
Ltac lookup_literal :=
  repeat (rewrite lookup_insert; case_decide; [subst; reflexivity|]);
  rewrite lookup_singleton; case_decide; [subst; reflexivity|];
  rewrite decide_False; [reflexivity|];
  rewrite !elem_of_cons, elem_of_nil; intuition congruence.

(** C2: whatever the state before, [resetAll] leaves the documented
    defaults: both inputs 0, the six weights 0.5, the three biases 0,
    and no other property. *)
Theorem C2_resetAll_defaults st :
  (forall k, inputs (resetAll st) !! k
             = if decide (k ∈ inputKeys) then Some 0 else None)
  /\ (forall k, weights (resetAll st) !! k
                = if decide (k ∈ weightKeys) then Some 0.5 else None)
  /\ (forall k, biases (resetAll st) !! k
                = if decide (k ∈ biasKeys) then Some 0 else None)
  /\ inputs (resetAll st) = inputs initialState
  /\ weights (resetAll st) = weights initialState
  /\ biases (resetAll st) = biases initialState.
Proof.
  split_and!; try reflexivity; intros k; cbn;
    unfold inputKeys, weightKeys, biasKeys; lookup_literal.
Qed.

Lemma apply_change_commute c1 c2 st :
  (target c1, property c1) <> (target c2, property c2) ->
  apply_change c1 (apply_change c2 st) = apply_change c2 (apply_change c1 st).
Proof.
  intros Hne. destruct c1 as [g1 k1 v1], c2 as [g2 k2 v2]. cbn in Hne.
  unfold apply_change, inputsCallback, weightsCallback,
    biasesCallback, setInputs, setWeights, setBiases.
  destruct g1, g2; cbn; try reflexivity;
    f_equal; apply insert_insert_ne; congruence.
Qed.

Lemma land_react c p : react (land c p) = apply_change c (react p).
Proof. destruct c as [g k v]. by destruct g. Qed.

(** C9 (counterexample): from the first render, moving the slider of A to
    1 and the slider of B to 0.25 within one wait of the debounce that the
    input sliders share ends in input B changed alone, and in the other
    order in input A changed alone: two states, two values of H1. *)
Lemma C9_counterexample :
  let c1 := mkChange Inputs "A" 1 in
  let c2 := mkChange Inputs "B" 0.25 in
  let p12 := elapse Inputs (slide c2 (slide c1 (idle initialState))) in
  let p21 := elapse Inputs (slide c1 (slide c2 (idle initialState))) in
  (target c1, property c1) <> (target c2, property c2)
  /\ inputs (react p12) !! "A" = Some 0
  /\ inputs (react p21) !! "A" = Some 1
  /\ react p12 <> react p21
  /\ H1 (calculateActivations (react p12))
     <> H1 (calculateActivations (react p21)).
Proof.
  cbn zeta. split_and!.
  - cbn. discriminate.
  - reflexivity.
  - reflexivity.
  - intros E. apply (f_equal (fun st => inputs st !! "A")) in E.
    change (Some 0 = Some 1) in E. injection E. lra.
  - rewrite (calculateActivations_eq
               (react (elapse Inputs
                         (slide (mkChange Inputs "B" 0.25)
                            (slide (mkChange Inputs "A" 1)
                               (idle initialState)))))
               0 0.25 0.5 0.5 0.5 0.5 0.5 0.5 0 0 0) by reflexivity.
    rewrite (calculateActivations_eq
               (react (elapse Inputs
                         (slide (mkChange Inputs "A" 1)
                            (slide (mkChange Inputs "B" 0.25)
                               (idle initialState)))))
               1 0 0.5 0.5 0.5 0.5 0.5 0.5 0 0 0) by reflexivity.
    cbn. intros E. injection E as E.
    assert (Hlt : sigma (0 * 0.5 + 0.25 * 0.5 + 0)
                  < sigma (1 * 0.5 + 0 * 0.5 + 0))
      by (apply sigma_increasing; lra).
    lra.
Qed.

(** C9 (as amended): two changes to distinct sliders give the same page,
    and so the same activations, in either order when each one lands
    before the next is made; so do two changes in different slider
    groups that are both pending, whichever wait runs out first.  Of two
    changes in the same group made within one wait only the later one
    lands. *)
Theorem C9_landed_changes_commute c1 c2 p :
  (target c1, property c1) <> (target c2, property c2) ->
  land c1 (land c2 p) = land c2 (land c1 p)
  /\ calculateActivations (react (land c1 (land c2 p)))
     = calculateActivations (react (land c2 (land c1 p)))
  /\ (target c1 <> target c2 ->
      elapse (target c1) (elapse (target c2) (slide c1 (slide c2 p)))
      = land c1 (land c2 p)
      /\ elapse (target c2) (elapse (target c1) (slide c2 (slide c1 p)))
         = land c1 (land c2 p))
  /\ (target c1 = target c2 ->
      elapse (target c2) (slide c2 (slide c1 p)) = land c2 p
      /\ elapse (target c1) (slide c1 (slide c2 p)) = land c1 p).
Proof.
  intros Hne.
  assert (E : land c1 (land c2 p) = land c2 (land c1 p)).
  { destruct c1 as [g1 k1 v1], c2 as [g2 k2 v2], p as [st pi pw pb].
    cbn in Hne.
    destruct g1, g2; cbn; try reflexivity;
      unfold inputsCallback, weightsCallback, biasesCallback,
        setInputs, setWeights, setBiases; cbn;
      do 2 f_equal; apply insert_insert_ne; congruence. }
  split; [exact E|]. split; [by rewrite E|]. split.
  - intros Hg. destruct c1 as [g1 k1 v1], c2 as [g2 k2 v2]. cbn in Hg.
    split; [|rewrite E];
      destruct p as [st pi pw pb], g1, g2; cbn; congruence.
  - intros Hg. destruct c1 as [g1 k1 v1], c2 as [g2 k2 v2]. cbn in Hg.
    subst g2. split; destruct p as [st pi pw pb], g1; reflexivity.
Qed.

Lemma C9_landed_changes_commute_witness :
  let c1 := mkChange Inputs "A" 1 in
  let c2 := mkChange Weights "A->H1" (-1) in
  land c1 (land c2 (idle initialState)) = land c2 (land c1 (idle initialState))
  /\ elapse Inputs (elapse Weights (slide c1 (slide c2 (idle initialState))))
     = land c1 (land c2 (idle initialState)).
Proof.
  destruct (C9_landed_changes_commute
              (mkChange Inputs "A" 1) (mkChange Weights "A->H1" (-1))
              (idle initialState))
    as (E & _ & Hd & _).
  - cbn. discriminate.
  - split; [exact E|]. apply Hd. cbn. discriminate.
Defined.

(** X10: Two changes to the same slider do not commute: the later one stays. *)
Lemma same_slider_last_wins g k v1 v2 st :
  apply_change (mkChange g k v1) (apply_change (mkChange g k v2) st)
  = apply_change (mkChange g k v1) st.
Proof.
  unfold apply_change, inputsCallback, weightsCallback,
    biasesCallback, setInputs, setWeights, setBiases.
  destruct g; cbn; f_equal; apply insert_insert_eq.
Qed.

End Updates.


(** ** Properties of the colour scales *)

Section Colours.
Local Open Scope R_scope.

Lemma clamp_pos w : w <> 0 -> 0 < Rmin (Rabs w) 1 <= 1.
Proof.
  intros Hw. pose proof (Rabs_pos_lt w Hw).
  split; [apply Rmin_glb_lt; lra | apply Rmin_r].
Qed.

(** C6: a positive weight gives a colour with only a green channel, a
    negative weight one with only a red channel, and in both the opacity
    is |w| clamped to 1 (and the channel grows with it, from 150 up to
    255). *)
Theorem C6_weight_color_sign_magnitude (w : R) :
  (0 < w ->
   getWeightColor (JS.Num w)
   = rgba 0%Z (JS.Num (150 + 105 * Rmin (Rabs w) 1)) 0%Z
       (JS.Num (Rmin (Rabs w) 1)))
  /\ (w < 0 ->
      getWeightColor (JS.Num w)
      = rgba (JS.Num (150 + 105 * Rmin (Rabs w) 1)) 0%Z 0%Z
          (JS.Num (Rmin (Rabs w) 1)))
  /\ (w <> 0 ->
      0 < Rmin (Rabs w) 1 <= 1
      /\ 150 < 150 + 105 * Rmin (Rabs w) 1 <= 255).
Proof.
  split; [|split].
  - intros Hw. unfold getWeightColor, lit. cbn.
    destruct (Rlt_dec 0 w); [reflexivity | contradiction].
  - intros Hw. unfold getWeightColor, lit. cbn.
    destruct (Rlt_dec 0 w); [lra|].
    destruct (Rlt_dec w 0); [reflexivity | contradiction].
  - intros Hw. pose proof (clamp_pos w Hw). lra.
Qed.

Lemma C6_weight_color_sign_magnitude_witness :
  getWeightColor (JS.Num 0.5)
  = rgba 0%Z (JS.Num (150 + 105 * Rmin (Rabs 0.5) 1)) 0%Z
      (JS.Num (Rmin (Rabs 0.5) 1))
  /\ getWeightColor (JS.Num (-2))
     = rgba (JS.Num (150 + 105 * Rmin (Rabs (-2)) 1)) 0%Z 0%Z
         (JS.Num (Rmin (Rabs (-2)) 1)).
Proof.
  split.
  - apply (proj1 (C6_weight_color_sign_magnitude 0.5)). lra.
  - apply (proj1 (proj2 (C6_weight_color_sign_magnitude (-2)))). lra.
Defined.

Lemma getWeightColor_zero :
  getWeightColor 0%Z = rgba 100%Z 100%Z 100%Z (JS.Num 0.5).
Proof.
  unfold getWeightColor, lit. cbn.
  destruct (Rlt_dec 0 0); [lra | reflexivity].
Qed.

Lemma round_between (lo hi : Z) (x : R) :
  IZR lo <= x <= IZR hi -> (lo <= Zfloor (x + / 2) <= hi)%Z.
Proof.
  intros [Hlo Hhi]. split.
  - apply Zfloor_lub. lra.
  - rewrite <- (Zfloor_eq hi (IZR hi + / 2)) by lra.
    apply Zfloor_le. lra.
Qed.

Lemma round_integer (z : Z) : Zfloor (IZR z + / 2) = z.
Proof. apply Zfloor_eq. lra. Qed.

Lemma getActivationColor_Num (a : R) :
  getActivationColor (JS.Num a)
  = rgb (Math.round (JS.Num (lerp 255 255 a)))
      (Math.round (JS.Num (lerp 249 152 a)))
      (Math.round (JS.Num (lerp 196 0 a))).
Proof. reflexivity. Qed.

End Colours.

(** ** Properties of the redraw *)

Section Drawing.
Local Open Scope R_scope.

Lemma call_then {A} (c : cmd) (k : Draw A) ctx :
  (call c ;; k) ctx = k (ctx ++ [c]).
Proof. reflexivity. Qed.

Lemma extends_call c : extends (call c).
Proof. intros ctx. exists [c]. reflexivity. Qed.

Lemma extends_ret {A} (a : A) : extends (mret a).
Proof. intros ctx. exists []. cbn. by rewrite app_nil_r. Qed.

Lemma extends_throw {A} : extends (@throw A).
Proof. intros ctx. exists []. cbn. by rewrite app_nil_r. Qed.

Lemma extends_bind {A B} (m : Draw A) (k : A -> Draw B) :
  extends m -> (forall a, extends (k a)) -> extends (m ≫= k).
Proof.
  intros Hm Hk ctx. destruct (Hm ctx) as [l1 E1].
  unfold mbind, Draw_bind. destruct (m ctx) as [[a|] ctx1]; cbn in *; subst.
  - destruct (Hk a (ctx ++ l1)) as [l2 E2].
    exists (l1 ++ l2). by rewrite E2, app_assoc.
  - by exists l1.
Qed.

Lemma extends_toFixed2 v : extends (toFixed2 v).
Proof. destruct v; [apply extends_ret | apply extends_throw]. Qed.

Lemma succeeds_call c : succeeds (call c).
Proof. intros ctx. exists [c]. reflexivity. Qed.

Lemma succeeds_then (m k : Draw unit) :
  succeeds m -> succeeds k -> succeeds (m ;; k).
Proof.
  intros Hm Hk ctx. destruct (Hm ctx) as [l1 E1].
  unfold mbind, Draw_bind. rewrite E1.
  destruct (Hk (ctx ++ l1)) as [l2 E2].
  exists (l1 ++ l2). by rewrite E2, app_assoc.
Qed.

Lemma succeeds_forEach {A} (l : list A) (f : A -> Draw unit) :
  Forall (fun a => succeeds (f a)) l -> succeeds (forEach l f).
Proof.
  induction 1 as [|a l Ha _ IH]; cbn.
  - intros ctx. exists []. cbn. by rewrite app_nil_r.
  - by apply succeeds_then.
Qed.

Lemma succeeds_drawConnection s e n :
  succeeds (drawConnection (mkConnection s e (Some n))).
Proof.
  unfold drawConnection; cbn.
  repeat (apply succeeds_then; [apply succeeds_call|]).
  apply succeeds_call.
Qed.

Lemma succeeds_drawNode st acts key pos n :
  nodeValue st acts key = Some n -> succeeds (drawNode st acts (key, pos)).
Proof.
  intros Hn. unfold drawNode. rewrite Hn.
  repeat (apply succeeds_then; [apply succeeds_call|]).
  unfold nodeValue in Hn.
  destruct (decide (key = "A" \/ key = "B")).
  - destruct (inputs st !! key); [|discriminate]. apply succeeds_call.
  - apply succeeds_call.
Qed.

Lemma succeeds_drawScene st dpr : complete st -> succeeds (drawScene st dpr).
Proof.
  intros (Hi & Hw & Hb).
  unfold defined_on, inputKeys, weightKeys, biasKeys in *.
  repeat match goal with
         | H : Forall _ (_ :: _) |- _ => apply Forall_cons in H; destruct H
         | H : is_Some _ |- _ => destruct H as [? ?]
         end.
  unfold drawScene.
  repeat (apply succeeds_then; [apply succeeds_call|]).
  apply succeeds_then.
  - apply succeeds_forEach. unfold connections.
    repeat match goal with H : weights st !! _ = Some _ |- _ =>
             rewrite H; clear H end.
    repeat constructor; apply succeeds_drawConnection.
  - apply succeeds_forEach. unfold nodes.
    repeat constructor;
      eapply succeeds_drawNode; unfold nodeValue; cbn;
      try reflexivity;
      match goal with H : inputs st !! _ = Some _ |- _ =>
        rewrite H; reflexivity end.
Qed.

(** With a drawing surface and every property in place, [drawNetwork]
    sizes the canvas, draws and returns. *)
Lemma drawNetwork_draws st canvas ctx dpr :
  complete st -> getContext2d canvas = Some ctx ->
  exists log,
    drawNetwork st (mkWorld (Some canvas) dpr)
    = (Returned,
       mkWorld (Some (mkCanvas
                        (setSize 300%Z (JS.Num (800 * JS.or_else dpr 1)))
                        (setSize 150%Z (JS.Num (500 * JS.or_else dpr 1)))
                        (Some (ctx ++ log)))) dpr).
Proof.
  intros Hst Hctx. unfold drawNetwork. cbn. rewrite Hctx.
  destruct (succeeds_drawScene st (JS.Num (JS.or_else dpr 1)) Hst ctx)
    as [log E].
  exists log. rewrite E. reflexivity.
Qed.

Lemma drawNode_fill st acts key pos ctx :
  exists rest,
    (drawNode st acts (key, pos) ctx).2
    = ctx ++ [BeginPath;
              Arc (Pos.x pos) (Pos.y pos) nodeRadius 0%Z (JS.Num (PI * 2));
              SetFillStyle
                (getActivationColor (asNumber (nodeValue st acts key)));
              Fill] ++ rest.
Proof.
  unfold drawNode. do 4 rewrite call_then.
  match goal with |- context [(?m ?c).2] =>
    assert (Hm : extends m); [|destruct (Hm c) as [rest E]] end.
  { repeat (apply extends_bind; [apply extends_call | intros _]).
    apply extends_bind; [|intros ?; apply extends_call].
    destruct (decide _);
      (apply extends_bind; [apply extends_toFixed2 | intros ?; apply extends_ret]). }
  exists rest. rewrite E. rewrite <- !app_assoc. reflexivity.
Qed.

(** C7: for an activation a in [0,1] the fill colour is, channel by
    channel, the rounded linear interpolation from pale yellow
    (255,249,196) at 0 to deep orange (255,152,0) at 1, so an integer
    between the two ends; the nodes A and B are filled from the raw
    input value, the others from the computed activation. *)
Theorem C7_node_fill_interpolation (a : R) :
  0 <= a <= 1 ->
  getActivationColor (JS.Num a)
  = rgb (Math.round (JS.Num (lerp 255 255 a)))
      (Math.round (JS.Num (lerp 249 152 a)))
      (Math.round (JS.Num (lerp 196 0 a)))
  /\ (exists g b : Z,
        getActivationColor (JS.Num a) = rgb 255%Z g b
        /\ (152 <= g <= 249)%Z /\ (0 <= b <= 196)%Z)
  /\ getActivationColor 0%Z = rgb 255%Z 249%Z 196%Z
  /\ getActivationColor 1%Z = rgb 255%Z 152%Z 0%Z
  /\ (forall st acts,
        nodeValue st acts "A" = JS.Num <$> (inputs st !! "A")
        /\ nodeValue st acts "B" = JS.Num <$> (inputs st !! "B")
        /\ nodeValue st acts "H1" = Some (H1 acts)
        /\ nodeValue st acts "H2" = Some (H2 acts)
        /\ nodeValue st acts "O" = Some (O acts))
  /\ (forall st acts key pos ctx,
        exists rest,
          (drawNode st acts (key, pos) ctx).2
          = ctx ++ [BeginPath;
                    Arc (Pos.x pos) (Pos.y pos) nodeRadius 0%Z
                      (JS.Num (PI * 2));
                    SetFillStyle
                      (getActivationColor
                         (asNumber (nodeValue st acts key)));
                    Fill] ++ rest).
Proof.
  intros Ha. split_and!.
  - apply getActivationColor_Num.
  - exists (Zfloor (lerp 249 152 a + / 2)), (Zfloor (lerp 196 0 a + / 2)).
    split; [|split].
    + rewrite getActivationColor_Num. unfold lit, lerp. cbn.
      replace (255 + (255 - 255) * a) with (IZR 255) by lra.
      by rewrite round_integer.
    + apply round_between. unfold lerp. lra.
    + apply round_between. unfold lerp. lra.
  - unfold getActivationColor, lit. cbn.
    replace (255 + (255 - 255) * 0) with (IZR 255) by lra.
    replace (249 + (152 - 249) * 0) with (IZR 249) by lra.
    replace (196 + (0 - 196) * 0) with (IZR 196) by lra.
    by rewrite !round_integer.
  - unfold getActivationColor, lit. cbn.
    replace (255 + (255 - 255) * 1) with (IZR 255) by lra.
    replace (249 + (152 - 249) * 1) with (IZR 152) by lra.
    replace (196 + (0 - 196) * 1) with (IZR 0) by lra.
    by rewrite !round_integer.
  - intros st acts. split_and!; reflexivity.
  - intros. apply drawNode_fill.
Qed.

Lemma C7_node_fill_interpolation_witness :
  0 <= 0.5 <= 1
  /\ getActivationColor (JS.Num 0.5)
     = rgb (Math.round (JS.Num (lerp 255 255 0.5)))
         (Math.round (JS.Num (lerp 249 152 0.5)))
         (Math.round (JS.Num (lerp 196 0 0.5))).
Proof.
  split; [lra|].
  apply (proj1 (C7_node_fill_interpolation 0.5 ltac:(lra))).
Defined.

(** C8: without a canvas element, or without a 2D context on it,
    [drawNetwork] returns at once: nothing is drawn, nothing is thrown
    and nothing it can reach is changed. *)
Theorem C8_missing_surface_is_skipped st w :
  canvasRef_current w = None
  \/ (exists canvas,
        canvasRef_current w = Some canvas /\ getContext2d canvas = None) ->
  drawNetwork st w = (Returned, w).
Proof.
  intros [Hnone | (canvas & Hc & Hctx)]; unfold drawNetwork.
  - by rewrite Hnone.
  - by rewrite Hc, Hctx.
Qed.

Lemma C8_missing_surface_is_skipped_witness :
  drawNetwork boundaryState (mkWorld None (Some 2))
  = (Returned, mkWorld None (Some 2))
  /\ drawNetwork boundaryState
       (mkWorld (Some (mkCanvas 300%Z 150%Z None)) None)
     = (Returned, mkWorld (Some (mkCanvas 300%Z 150%Z None)) None).
Proof.
  split.
  - apply (C8_missing_surface_is_skipped boundaryState). left. reflexivity.
  - apply (C8_missing_surface_is_skipped boundaryState). right.
    eexists. split; reflexivity.
Defined.

(** C10: a weight of exactly 0 gets the fixed grey
    rgba(100, 100, 100, 0.5), whose opacity is not 0, and the edge is
    stroked with it like any other. *)
Theorem C10_zero_weight_is_grey :
  getWeightColor 0%Z = rgba 100%Z 100%Z 100%Z (JS.Num 0.5)
  /\ 0.5 <> 0
  /\ (forall s e ctx,
        drawConnection (mkConnection s e (Some (JS.Num 0))) ctx
        = (Some tt,
           ctx ++ [BeginPath;
                   SetStrokeStyle (rgba 100%Z 100%Z 100%Z (JS.Num 0.5));
                   MoveTo (Pos.x s + nodeRadius)%js (Pos.y s);
                   LineTo (Pos.x e - nodeRadius)%js (Pos.y e);
                   Stroke;
                   SetFillStyle (css "#333");
                   SetTextAlign "center";
                   FillText (Fixed2 (JS.Num 0))
                     ((Pos.x s + Pos.x e) / 2%Z)%js
                     ((Pos.y s + Pos.y e) / 2%Z - 10%Z)%js]))
  /\ (forall st,
        weights st !! "A->H1" = Some 0 ->
        exists rest,
          connections st
          = mkConnection nodes_A nodes_H1 (Some (JS.Num 0)) :: rest).
Proof.
  split_and!.
  - apply getWeightColor_zero.
  - lra.
  - intros s e ctx. unfold drawConnection. cbn -[getWeightColor].
    change (JS.Num 0) with (lit 0%Z). rewrite getWeightColor_zero.
    unfold mbind, Draw_bind, call. cbn.
    rewrite <- !app_assoc. reflexivity.
  - intros st Hw. unfold connections. rewrite Hw. eexists. reflexivity.
Qed.

Lemma C10_zero_weight_is_grey_witness :
  exists rest,
    connections (weightsCallback "A->H1" 0 initialState)
    = mkConnection nodes_A nodes_H1 (Some (JS.Num 0)) :: rest.
Proof.
  apply (proj2 (proj2 (proj2 C10_zero_weight_is_grey))). reflexivity.
Defined.

End Drawing.


(** ** More on the feed-forward pass *)

Section FeedForwardMore.
Local Open Scope R_scope.

Lemma sigma_opp x : sigma (- x) = 1 - sigma x.
Proof.
  unfold sigma. rewrite Ropp_involutive, exp_Ropp.
  pose proof (exp_pos x). field. split; lra.
Qed.

Lemma exp_neg_4_lower : 0.01829 < Rtrigo_def.exp (- (4)).
Proof.
  assert (Hx : 0 <= 1 <= 1) by lra.
  destruct (exp_neg_bracket 1 3 Hx) as [Hlo _].
  unfold tg_alt, exp_term in Hlo. simpl in Hlo.
  set (e := Rtrigo_def.exp (- (1))) in *.
  assert (He : 0.3678 <= e) by lra.
  replace (- (4)) with (- (1) + - (1) + (- (1) + - (1))) by lra.
  rewrite !exp_plus. fold e.
  assert (H2 : 0.13527 <= e * e) by nra.
  nra.
Qed.

Lemma sigma_4_upper : sigma 4 < 0.9821.
Proof.
  unfold sigma. pose proof exp_neg_4_lower as He.
  set (e := Rtrigo_def.exp (- (4))) in *.
  apply (Rmult_lt_reg_r (1 + e)); [lra|]. field_simplify; lra.
Qed.

Lemma sigma_bounded_on_slider_range x :
  -4 <= x <= 4 -> 0.0179 < sigma x < 0.9821.
Proof.
  intros [Hlo Hhi]. pose proof sigma_4_upper as H4.
  assert (Hm : sigma (-4) = 1 - sigma 4)
    by (replace (-4) with (- (4)) by lra; apply sigma_opp).
  assert (sigma x <= sigma 4).
  { destruct (Req_dec_T x 4) as [->|]; [lra|].
    left. apply sigma_increasing. lra. }
  assert (sigma (-4) <= sigma x).
  { destruct (Req_dec_T x (-4)) as [->|]; [lra|].
    left. apply sigma_increasing. lra. }
  lra.
Qed.

Lemma isFinite_ToNumber v : JS.isFinite (JS.ToNumber v) <-> is_Some v.
Proof.
  destruct v; cbn; split; eauto; try done.
Qed.

Lemma isFinite_add a b :
  JS.isFinite (a + b)%js -> JS.isFinite a /\ JS.isFinite b.
Proof. destruct a, b; cbn; tauto. Qed.

Lemma isFinite_mul a b :
  JS.isFinite (a * b)%js -> JS.isFinite a /\ JS.isFinite b.
Proof. destruct a, b; cbn; tauto. Qed.

Lemma isFinite_sigmoid a : JS.isFinite (sigmoid a) -> JS.isFinite a.
Proof. destruct a; [done|]. by rewrite sigmoid_NaN. Qed.

(** X1: The output is a number exactly when none of the eleven properties is
    missing: one missing input, weight or bias makes it [NaN]. *)
Theorem output_finite_iff_complete st :
  JS.isFinite (O (calculateActivations st)) <-> complete st.
Proof.
  split.
  - unfold calculateActivations. cbn. intros H.
    apply isFinite_sigmoid, isFinite_add in H as [H HbO].
    apply isFinite_add in H as [Hh1 Hh2].
    apply isFinite_mul in Hh1 as [Hh1 HwH1O].
    apply isFinite_mul in Hh2 as [Hh2 HwH2O].
    apply isFinite_sigmoid, isFinite_add in Hh1 as [Hh1 HbH1].
    apply isFinite_add in Hh1 as [HA1 HB1].
    apply isFinite_mul in HA1 as [HA HwAH1].
    apply isFinite_mul in HB1 as [HB HwBH1].
    apply isFinite_sigmoid, isFinite_add in Hh2 as [Hh2 HbH2].
    apply isFinite_add in Hh2 as [HA2 HB2].
    apply isFinite_mul in HA2 as [_ HwAH2].
    apply isFinite_mul in HB2 as [_ HwBH2].
    rewrite isFinite_ToNumber in *.
    repeat split; repeat constructor; assumption.
  - intros H. apply complete_in_range in H as (_ & _ & H & _). exact H.
Qed.

Lemma not_in_cons_ne (k x : string) (l : list string) :
  k ∉ x :: l -> k <> x /\ k ∉ l.
Proof. rewrite not_elem_of_cons. intuition congruence. Qed.

(** X2: A change to a property that an activation is not computed from leaves
    that activation as it was: the hidden activations ignore the output
    weights and bias and each other's parameters, and nothing reads a
    property outside the eleven. *)
Theorem unread_change_keeps_activation c st :
  (property c ∉ reads_H1 (target c) ->
   H1 (calculateActivations (apply_change c st))
   = H1 (calculateActivations st))
  /\ (property c ∉ reads_H2 (target c) ->
      H2 (calculateActivations (apply_change c st))
      = H2 (calculateActivations st))
  /\ (property c ∉ reads_O (target c) ->
      calculateActivations (apply_change c st) = calculateActivations st).
Proof.
  destruct c as [g k v].
  split_and!; intros Hk; destruct g; cbn in Hk;
    unfold inputKeys, weightKeys, biasKeys in Hk;
    repeat (apply not_in_cons_ne in Hk as [? Hk]);
    unfold calculateActivations, apply_change; cbn;
    rewrite ?lookup_insert_ne by assumption; reflexivity.
Qed.

Lemma unread_change_keeps_activation_witness :
  H1 (calculateActivations
        (apply_change (mkChange Weights "H1->O" (-1)) initialState))
  = H1 (calculateActivations initialState).
Proof.
  apply (proj1 (unread_change_keeps_activation
                  (mkChange Weights "H1->O" (-1)) initialState)).
  cbn. rewrite !not_elem_of_cons. split_and!; try done. apply not_elem_of_nil.
Defined.

End FeedForwardMore.

(** ** Sliders: what a change does to the activations *)

Section Sliders.
Local Open Scope R_scope.

Lemma complete_values st :
  complete st ->
  exists A B wAH1 wBH1 wAH2 wBH2 wH1O wH2O bH1 bH2 bO,
    inputs st !! "A" = Some A /\ inputs st !! "B" = Some B
    /\ weights st !! "A->H1" = Some wAH1 /\ weights st !! "B->H1" = Some wBH1
    /\ weights st !! "A->H2" = Some wAH2 /\ weights st !! "B->H2" = Some wBH2
    /\ weights st !! "H1->O" = Some wH1O /\ weights st !! "H2->O" = Some wH2O
    /\ biases st !! "H1" = Some bH1 /\ biases st !! "H2" = Some bH2
    /\ biases st !! "O" = Some bO.
Proof.
  intros (Hi & Hw & Hb).
  unfold defined_on, inputKeys, weightKeys, biasKeys in *.
  repeat match goal with
         | H : Forall _ (_ :: _) |- _ => apply Forall_cons in H; destruct H
         | H : is_Some _ |- _ => destruct H
         end.
  do 11 eexists. split_and!; eassumption.
Qed.

(** Evaluates [calculateActivations] on a state whose eleven properties
    are known, possibly after a change. *)
Ltac read_property :=
  cbn; rewrite ?lookup_insert_eq, ?lookup_insert_ne by done;
  first [eassumption | reflexivity].

Ltac evaluate st' :=
  erewrite (calculateActivations_eq st') by read_property.

(** X4: Raising the bias of a neuron raises its activation, as the caption
    of the bias sliders says. *)
Theorem bias_raises_activation st (v v' : R) :
  complete st -> v < v' ->
  JS.Lt (H1 (calculateActivations (biasesCallback "H1" v st)))
        (H1 (calculateActivations (biasesCallback "H1" v' st)))
  /\ JS.Lt (H2 (calculateActivations (biasesCallback "H2" v st)))
           (H2 (calculateActivations (biasesCallback "H2" v' st)))
  /\ JS.Lt (O (calculateActivations (biasesCallback "O" v st)))
           (O (calculateActivations (biasesCallback "O" v' st))).
Proof.
  intros Hst Hv.
  destruct (complete_values st Hst)
    as (A & B & wAH1 & wBH1 & wAH2 & wBH2 & wH1O & wH2O & bH1 & bH2 & bO
        & ? & ? & ? & ? & ? & ? & ? & ? & ? & ? & ?).
  split_and!.
  - evaluate (biasesCallback "H1" v st).
    evaluate (biasesCallback "H1" v' st).
    cbn. apply sigma_increasing. lra.
  - evaluate (biasesCallback "H2" v st).
    evaluate (biasesCallback "H2" v' st).
    cbn. apply sigma_increasing. lra.
  - evaluate (biasesCallback "O" v st).
    evaluate (biasesCallback "O" v' st).
    cbn. apply sigma_increasing. lra.
Qed.

Lemma bias_raises_activation_witness :
  JS.Lt (O (calculateActivations (biasesCallback "O" (-2) boundaryState)))
        (O (calculateActivations (biasesCallback "O" 2 boundaryState))).
Proof.
  apply (bias_raises_activation boundaryState (-2) 2); [|lra].
  repeat split; cbn; repeat constructor; eexists; reflexivity.
Defined.

(** X5: A weight of 0 turns its connection off, as the page tells the user:
    the hidden neuron no longer depends on that input, and the output no
    longer depends on that hidden neuron (here, on its bias). *)
Theorem zero_weight_disconnects st (v v' : R) :
  complete st ->
  (weights st !! "A->H1" = Some 0 ->
   H1 (calculateActivations (inputsCallback "A" v st))
   = H1 (calculateActivations (inputsCallback "A" v' st)))
  /\ (weights st !! "B->H1" = Some 0 ->
      H1 (calculateActivations (inputsCallback "B" v st))
      = H1 (calculateActivations (inputsCallback "B" v' st)))
  /\ (weights st !! "A->H2" = Some 0 ->
      H2 (calculateActivations (inputsCallback "A" v st))
      = H2 (calculateActivations (inputsCallback "A" v' st)))
  /\ (weights st !! "B->H2" = Some 0 ->
      H2 (calculateActivations (inputsCallback "B" v st))
      = H2 (calculateActivations (inputsCallback "B" v' st)))
  /\ (weights st !! "H1->O" = Some 0 ->
      O (calculateActivations (biasesCallback "H1" v st))
      = O (calculateActivations (biasesCallback "H1" v' st)))
  /\ (weights st !! "H2->O" = Some 0 ->
      O (calculateActivations (biasesCallback "H2" v st))
      = O (calculateActivations (biasesCallback "H2" v' st))).
Proof.
  intros Hst.
  destruct (complete_values st Hst)
    as (A & B & wAH1 & wBH1 & wAH2 & wBH2 & wH1O & wH2O & bH1 & bH2 & bO
        & ? & ? & ? & ? & ? & ? & ? & ? & ? & ? & ?).
  split_and!; intros Hz;
    match goal with
    | |- _ (calculateActivations ?s) = _ (calculateActivations ?s') =>
        evaluate s; evaluate s'
    end;
    cbn; do 2 f_equal;
    match goal with
    | H : ?m !! ?k = Some ?w |- _ =>
        rewrite H in Hz; injection Hz as ->; lra
    end.
Qed.

Lemma zero_weight_disconnects_witness :
  let st := weightsCallback "A->H1" 0 boundaryState in
  H1 (calculateActivations (inputsCallback "A" 0 st))
  = H1 (calculateActivations (inputsCallback "A" 1 st)).
Proof.
  apply (zero_weight_disconnects
           (weightsCallback "A->H1" 0 boundaryState) 0 1).
  - repeat split; cbn; repeat constructor; eexists; reflexivity.
  - reflexivity.
Defined.

End Sliders.

(** ** The states the page can reach *)

Section Reachable.
Local Open Scope R_scope.

Ltac in_keys :=
  unfold inputKeys, weightKeys, biasKeys; rewrite !elem_of_cons; intuition.

Lemma dom_insert_present (o : object) k v :
  is_Some (o !! k) -> dom (<[k := v]> o) = dom o.
Proof.
  intros Hk. apply elem_of_dom in Hk. rewrite dom_insert_L.
  apply set_eq. intros x. rewrite elem_of_union, elem_of_singleton.
  split; [intros [->|?]; done | auto].
Qed.

Lemma within_insert lo hi (o : object) k v :
  lo <= v <= hi -> within lo hi o -> within lo hi (<[k := v]> o).
Proof. intros Hv Ho. by apply map_Forall_insert_2. Qed.

Lemma slider_invariant_initial : slider_invariant initialState.
Proof.
  unfold slider_invariant, within, inputKeys, weightKeys, biasKeys. cbn.
  split_and!;
    try (rewrite ?dom_insert_L, ?dom_singleton_L, ?dom_empty_L; reflexivity);
    repeat (apply map_Forall_insert_2; [lra|]);
    first [apply map_Forall_empty | apply map_Forall_singleton; lra].
Qed.

Lemma slider_invariant_dispatch e st :
  slider_invariant st -> enabled e st -> slider_invariant (dispatch e st).
Proof.
  intros (Di & Dw & Db & Ri & Rw & Rb) He.
  destruct e as [[g k v]| | b | d |]; cbn in *.
  - destruct He as [Hk Hv].
    destruct g; cbn in *; unfold slider_invariant; cbn;
      rewrite dom_insert_present by assumption;
      split_and!; try assumption; by apply within_insert.
  - apply slider_invariant_initial.
  - unfold observerCallback. destruct b; cbn; unfold slider_invariant; cbn;
      by split_and!.
  - unfold onDrag. destruct (isFloating st); cbn; unfold slider_invariant;
      cbn; by split_and!.
  - unfold slider_invariant; cbn; by split_and!.
Qed.

Lemma slider_invariant_lookup lo hi (o : object) keys k :
  dom o = list_to_set keys -> within lo hi o -> k ∈ keys ->
  exists v, o !! k = Some v /\ lo <= v <= hi.
Proof.
  intros Hd Hr Hk.
  assert (Hin : k ∈ dom o) by (rewrite Hd; by apply elem_of_list_to_set).
  apply elem_of_dom in Hin as [v Hv].
  exists v. split; [exact Hv|]. exact (Hr k v Hv).
Qed.

Lemma slider_invariant_complete st : slider_invariant st -> complete st.
Proof.
  intros (Di & Dw & Db & _).
  unfold complete, defined_on.
  split_and!; apply Forall_forall; intros k Hk; apply elem_of_dom;
    [rewrite Di | rewrite Dw | rewrite Db]; by apply elem_of_list_to_set.
Qed.

Lemma slider_invariant_reachable st : reachable st -> slider_invariant st.
Proof.
  induction 1 as [|st e _ IH He].
  - apply slider_invariant_initial.
  - by apply slider_invariant_dispatch.
Qed.

(** X7: From the first render on, whatever the user does, the three objects
    keep exactly their properties (two inputs, six weights, three
    biases) and every value stays in the range of its slider. *)
Theorem reachable_slider_invariant st :
  reachable st -> slider_invariant st.
Proof.
  intros Hst. induction Hst as [|st e _ IH He].
  - apply slider_invariant_initial.
  - destruct e; apply slider_invariant_dispatch; assumption.
Qed.

Lemma reachable_slider_invariant_witness :
  slider_invariant
    (dispatch (SliderChange (mkChange Weights "H1->O" (-1)))
       (dispatch ResetClick initialState)).
Proof.
  apply reachable_slider_invariant.
  apply reachable_dispatch.
  - apply reachable_dispatch; [apply reachable_initial | exact I].
  - split; [eexists; reflexivity | cbn; lra].
Defined.

(** X6: With every value in the range of its slider, the argument of each
    sigmoid lies in [-4, 4], so the three activations stay between
    0.0179 and 0.9821: they never come close to 0 or 1. *)
Theorem slider_ranges_bound_activations st :
  slider_invariant st ->
  exists h1 h2 o,
    calculateActivations st
    = {| H1 := JS.Num h1; H2 := JS.Num h2; O := JS.Num o |}
    /\ 0.0179 < h1 < 0.9821
    /\ 0.0179 < h2 < 0.9821
    /\ 0.0179 < o < 0.9821.
Proof.
  intros (Di & Dw & Db & Ri & Rw & Rb).
  destruct (slider_invariant_lookup 0 1 _ inputKeys "A" Di Ri)
    as (A & HA & ?); [in_keys|].
  destruct (slider_invariant_lookup 0 1 _ inputKeys "B" Di Ri)
    as (B & HB & ?); [in_keys|].
  destruct (slider_invariant_lookup (-1) 1 _ weightKeys "A->H1" Dw Rw)
    as (wAH1 & ? & ?); [in_keys|].
  destruct (slider_invariant_lookup (-1) 1 _ weightKeys "B->H1" Dw Rw)
    as (wBH1 & ? & ?); [in_keys|].
  destruct (slider_invariant_lookup (-1) 1 _ weightKeys "A->H2" Dw Rw)
    as (wAH2 & ? & ?); [in_keys|].
  destruct (slider_invariant_lookup (-1) 1 _ weightKeys "B->H2" Dw Rw)
    as (wBH2 & ? & ?); [in_keys|].
  destruct (slider_invariant_lookup (-1) 1 _ weightKeys "H1->O" Dw Rw)
    as (wH1O & ? & ?); [in_keys|].
  destruct (slider_invariant_lookup (-1) 1 _ weightKeys "H2->O" Dw Rw)
    as (wH2O & ? & ?); [in_keys|].
  destruct (slider_invariant_lookup (-2) 2 _ biasKeys "H1" Db Rb)
    as (bH1 & ? & ?); [in_keys|].
  destruct (slider_invariant_lookup (-2) 2 _ biasKeys "H2" Db Rb)
    as (bH2 & ? & ?); [in_keys|].
  destruct (slider_invariant_lookup (-2) 2 _ biasKeys "O" Db Rb)
    as (bO & ? & ?); [in_keys|].
  do 3 eexists. split; [eapply calculateActivations_eq; eassumption|].
  assert (H1in : -4 <= A * wAH1 + B * wBH1 + bH1 <= 4) by nra.
  assert (H2in : -4 <= A * wAH2 + B * wBH2 + bH2 <= 4) by nra.
  pose proof (sigma_pos (A * wAH1 + B * wBH1 + bH1)).
  pose proof (sigma_lt_1 (A * wAH1 + B * wBH1 + bH1)).
  pose proof (sigma_pos (A * wAH2 + B * wBH2 + bH2)).
  pose proof (sigma_lt_1 (A * wAH2 + B * wBH2 + bH2)).
  split_and!; try (apply sigma_bounded_on_slider_range; assumption);
    apply sigma_bounded_on_slider_range; nra.
Qed.

Lemma slider_ranges_bound_activations_witness :
  exists h1 h2 o,
    calculateActivations initialState
    = {| H1 := JS.Num h1; H2 := JS.Num h2; O := JS.Num o |}
    /\ 0.0179 < h1 < 0.9821
    /\ 0.0179 < h2 < 0.9821
    /\ 0.0179 < o < 0.9821.
Proof.
  apply (slider_ranges_bound_activations initialState).
  unfold slider_invariant, within, inputKeys, weightKeys, biasKeys. cbn.
  split_and!;
    try (rewrite ?dom_insert_L, ?dom_singleton_L, ?dom_empty_L; reflexivity);
    repeat (apply map_Forall_insert_2; [lra|]);
    first [apply map_Forall_empty | apply map_Forall_singleton; lra].
Defined.

(** X8: On the page, with a canvas and its context in place, a redraw never
    throws: [drawNetwork] returns in every reachable state. *)
Theorem reachable_redraw_returns st canvas ctx dpr :
  reachable st -> getContext2d canvas = Some ctx ->
  (drawNetwork st (mkWorld (Some canvas) dpr)).1 = Returned.
Proof.
  intros Hst Hctx.
  apply slider_invariant_reachable, slider_invariant_complete in Hst.
  destruct (drawNetwork_draws st canvas ctx dpr Hst Hctx) as [log E].
  by rewrite E.
Qed.

Lemma reachable_redraw_returns_witness :
  (drawNetwork (dispatch ResetClick initialState)
     (mkWorld (Some (mkCanvas 300%Z 150%Z (Some []))) None)).1 = Returned.
Proof.
  apply (reachable_redraw_returns (dispatch ResetClick initialState)
           (mkCanvas 300%Z 150%Z (Some [])) [] None).
  - apply reachable_dispatch; [apply reachable_initial | exact I].
  - reflexivity.
Defined.

End Reachable.


(** ** More on the state updates *)

Section UpdatesMore.
Local Open Scope R_scope.

(** X9: A slider change is read back: the property holds the new value,
    every other property of the three objects is as before, and the
    floating canvas is not touched. *)
Theorem change_then_read c st :
  group_object (target c) (apply_change c st) !! property c = Some (value c)
  /\ (forall g k,
        (g, k) <> (target c, property c) ->
        group_object g (apply_change c st) !! k = group_object g st !! k)
  /\ isFloating (apply_change c st) = isFloating st
  /\ dragPosition (apply_change c st) = dragPosition st.
Proof.
  destruct c as [g0 k0 v]. unfold apply_change. cbn.
  split_and!.
  - destruct g0; cbn; apply lookup_insert_eq.
  - intros g k Hne.
    destruct g0, g; cbn; try reflexivity;
      apply lookup_insert_ne; congruence.
  - by destruct g0.
  - by destruct g0.
Qed.

Lemma change_then_read_witness :
  group_object Inputs
    (apply_change (mkChange Weights "A->H1" 1) initialState) !! "A"
  = group_object Inputs initialState !! "A".
Proof.
  apply (proj1 (proj2 (change_then_read
                         (mkChange Weights "A->H1" 1) initialState))).
  cbn. discriminate.
Defined.

(** X11: A reset forgets every slider change made before it, a second reset
    changes nothing more, and a reset leaves the floating canvas where
    it is. *)
Theorem resetAll_forgets_changes c st :
  resetAll (apply_change c st) = resetAll st
  /\ resetAll (resetAll st) = resetAll st
  /\ isFloating (resetAll st) = isFloating st
  /\ dragPosition (resetAll st) = dragPosition st.
Proof.
  split_and!; try reflexivity.
  destruct c as [g k v]. by destruct g.
Qed.

End UpdatesMore.

(** ** More on the colour scales *)

Section ColoursMore.
Local Open Scope R_scope.

Lemma getWeightColor_pos (w : R) :
  0 < w ->
  getWeightColor (JS.Num w)
  = rgba 0%Z (JS.Num (150 + 105 * Rmin (Rabs w) 1)) 0%Z
      (JS.Num (Rmin (Rabs w) 1)).
Proof.
  intros Hw. unfold getWeightColor, lit. cbn.
  destruct (Rlt_dec 0 w); [reflexivity | contradiction].
Qed.

Lemma getWeightColor_neg (w : R) :
  w < 0 ->
  getWeightColor (JS.Num w)
  = rgba (JS.Num (150 + 105 * Rmin (Rabs w) 1)) 0%Z 0%Z
      (JS.Num (Rmin (Rabs w) 1)).
Proof.
  intros Hw. unfold getWeightColor, lit. cbn.
  destruct (Rlt_dec 0 w); [lra|].
  destruct (Rlt_dec w 0); [reflexivity | contradiction].
Qed.

Lemma getWeightColor_NaN :
  getWeightColor JS.NaN = rgba 100%Z 100%Z 100%Z (JS.Num 0.5).
Proof. reflexivity. Qed.

(** X12: From |w| = 1 on the edge colour no longer changes: full green for
    [w >= 1], full red for [w <= -1], both opaque. *)
Theorem getWeightColor_saturates (w : R) :
  (1 <= w -> getWeightColor (JS.Num w) = rgba 0%Z 255%Z 0%Z 1%Z)
  /\ (w <= -1 -> getWeightColor (JS.Num w) = rgba 255%Z 0%Z 0%Z 1%Z).
Proof.
  split; intros Hw.
  - rewrite getWeightColor_pos by lra.
    rewrite Rmin_right by (rewrite Rabs_right; lra).
    unfold lit. do 2 f_equal; lra.
  - rewrite getWeightColor_neg by lra.
    rewrite Rmin_right by (rewrite Rabs_left; lra).
    unfold lit. do 2 f_equal; lra.
Qed.

Lemma getWeightColor_saturates_witness :
  getWeightColor (JS.Num 1) = rgba 0%Z 255%Z 0%Z 1%Z
  /\ getWeightColor (JS.Num (-1)) = rgba 255%Z 0%Z 0%Z 1%Z.
Proof.
  split.
  - apply (proj1 (getWeightColor_saturates 1)). lra.
  - apply (proj2 (getWeightColor_saturates (-1))). lra.
Defined.

(** X13: The scale is mirrored: the colour of [-w] is the colour of [w] with
    red and green exchanged, for every number and for [NaN]. *)
Theorem getWeightColor_mirror (w : JS.num) :
  getWeightColor (- w)%js = swap_red_green (getWeightColor w).
Proof.
  destruct w as [x|]; [|reflexivity]. cbn [JS.neg JS.lift1].
  destruct (Rtotal_order x 0) as [Hx | [-> | Hx]].
  - rewrite (getWeightColor_neg x) by lra.
    rewrite getWeightColor_pos by lra. by rewrite Rabs_Ropp.
  - replace (- 0) with 0 by lra. change (JS.Num 0) with (lit 0%Z).
    by rewrite getWeightColor_zero.
  - rewrite (getWeightColor_pos x) by lra.
    rewrite getWeightColor_neg by lra. by rewrite Rabs_Ropp.
Qed.

(** X14: No weight is drawn in the colour of a legend swatch: on the scale the
    opacity 0.8 goes with the channel value 234, not 255. *)
Theorem legend_swatches_are_off_the_scale (w : JS.num) :
  getWeightColor w <> legendPositive /\ getWeightColor w <> legendNegative.
Proof.
  unfold legendPositive, legendNegative, lit.
  destruct w as [x|]; [|split; intros E; injection E; intros; lra].
  destruct (Rtotal_order x 0) as [Hx | [-> | Hx]].
  - rewrite getWeightColor_neg by lra. unfold lit.
    split; intros E; injection E; intros; lra.
  - change (JS.Num 0) with (lit 0%Z). rewrite getWeightColor_zero.
    unfold lit. split; intros E; injection E; intros; lra.
  - rewrite getWeightColor_pos by lra. unfold lit.
    split; intros E; injection E; intros; lra.
Qed.

(** X15: The node colour only darkens as the activation grows: red stays at
    255, green and blue never increase. *)
Theorem getActivationColor_darkens (a a' : R) :
  a <= a' ->
  exists g b g' b' : Z,
    getActivationColor (JS.Num a) = rgb 255%Z g b
    /\ getActivationColor (JS.Num a') = rgb 255%Z g' b'
    /\ (g' <= g)%Z /\ (b' <= b)%Z.
Proof.
  intros Ha.
  exists (Zfloor (lerp 249 152 a + / 2)), (Zfloor (lerp 196 0 a + / 2)),
    (Zfloor (lerp 249 152 a' + / 2)), (Zfloor (lerp 196 0 a' + / 2)).
  assert (Hred : forall t, Zfloor (lerp 255 255 t + / 2) = 255%Z).
  { intros t. unfold lerp.
    replace (255 + (255 - 255) * t) with (IZR 255) by lra.
    apply round_integer. }
  split_and!.
  - rewrite getActivationColor_Num. unfold lit. cbn. by rewrite Hred.
  - rewrite getActivationColor_Num. unfold lit. cbn. by rewrite Hred.
  - apply Zfloor_le. unfold lerp. lra.
  - apply Zfloor_le. unfold lerp. lra.
Qed.

Lemma getActivationColor_darkens_witness :
  exists g b g' b' : Z,
    getActivationColor (JS.Num 0.25) = rgb 255%Z g b
    /\ getActivationColor (JS.Num 0.75) = rgb 255%Z g' b'
    /\ (g' <= g)%Z /\ (b' <= b)%Z.
Proof. apply (getActivationColor_darkens 0.25 0.75). lra. Defined.

End ColoursMore.

(** ** More on the redraw *)

Section DrawingMore.
Local Open Scope R_scope.

Lemma uniform_call c : uniform (call c).
Proof. intros ctx. reflexivity. Qed.

Lemma uniform_ret {A} (a : A) : uniform (mret a).
Proof. intros ctx. cbn. by rewrite app_nil_r. Qed.

Lemma uniform_throw {A} : uniform (@throw A).
Proof. intros ctx. cbn. by rewrite app_nil_r. Qed.

Lemma uniform_bind {A B} (m : Draw A) (k : A -> Draw B) :
  uniform m -> (forall a, uniform (k a)) -> uniform (m ≫= k).
Proof.
  intros Hm Hk ctx. unfold mbind, Draw_bind. rewrite (Hm ctx).
  destruct (m []) as [[a|] l]; cbn; [|reflexivity].
  rewrite (Hk a (ctx ++ l)), (Hk a l). cbn. by rewrite app_assoc.
Qed.

Lemma uniform_toFixed2 v : uniform (toFixed2 v).
Proof. destruct v; [apply uniform_ret | apply uniform_throw]. Qed.

Lemma uniform_forEach {A} (l : list A) (f : A -> Draw unit) :
  (forall a, uniform (f a)) -> uniform (forEach l f).
Proof.
  intros Hf. induction l as [|a l IH]; cbn.
  - apply uniform_ret.
  - apply uniform_bind; [apply Hf | intros _; apply IH].
Qed.

Ltac uniform_calls :=
  repeat (apply uniform_bind; [apply uniform_call | intros _]).

Lemma uniform_drawConnection c : uniform (drawConnection c).
Proof.
  unfold drawConnection. uniform_calls.
  apply uniform_bind; [apply uniform_toFixed2 | intros ?; apply uniform_call].
Qed.

Lemma uniform_drawNode st acts entry : uniform (drawNode st acts entry).
Proof.
  destruct entry as [key pos]. unfold drawNode. uniform_calls.
  apply uniform_bind; [|intros ?; apply uniform_call].
  destruct (decide _);
    (apply uniform_bind; [apply uniform_toFixed2 | intros ?; apply uniform_ret]).
Qed.

Lemma uniform_drawScene st dpr : uniform (drawScene st dpr).
Proof.
  unfold drawScene. uniform_calls.
  apply uniform_bind; [|intros _];
    apply uniform_forEach; intros ?;
    [apply uniform_drawConnection | apply uniform_drawNode].
Qed.

(** X16: A second redraw in the same state ends the same way and sends the
    context exactly the commands of the first once more, whatever the
    context and the canvas held before. *)
Theorem redraw_repeats st canvas ctx dpr :
  getContext2d canvas = Some ctx ->
  exists r size log,
    drawNetwork st (mkWorld (Some canvas) dpr)
    = (r, mkWorld (Some (mkCanvas size.1 size.2 (Some (ctx ++ log)))) dpr)
    /\ drawNetwork st
         (mkWorld (Some (mkCanvas size.1 size.2 (Some (ctx ++ log)))) dpr)
       = (r, mkWorld (Some (mkCanvas size.1 size.2
                              (Some (ctx ++ log ++ log)))) dpr).
Proof.
  intros Hctx.
  set (d := JS.Num (JS.or_else dpr 1)).
  pose proof (uniform_drawScene st d) as Hu.
  destruct (drawScene st d []) as [r log] eqn:E.
  exists (match r with Some _ => Returned | None => ThrewTypeError end),
    (setSize 300%Z (800%Z * d)%js, setSize 150%Z (500%Z * d)%js), log.
  split; unfold drawNetwork; cbn; rewrite ?Hctx; fold d.
  - rewrite (Hu ctx), E. reflexivity.
  - rewrite (Hu (ctx ++ log)), E. cbn. by rewrite <- app_assoc.
Qed.

Lemma redraw_repeats_witness :
  exists r size log,
    drawNetwork boundaryState
      (mkWorld (Some (mkCanvas 300%Z 150%Z (Some [Fill]))) (Some 2))
    = (r, mkWorld (Some (mkCanvas size.1 size.2 (Some ([Fill] ++ log))))
            (Some 2))
    /\ drawNetwork boundaryState
         (mkWorld (Some (mkCanvas size.1 size.2 (Some ([Fill] ++ log))))
            (Some 2))
       = (r, mkWorld (Some (mkCanvas size.1 size.2
                              (Some ([Fill] ++ log ++ log)))) (Some 2)).
Proof.
  apply (redraw_repeats boundaryState (mkCanvas 300%Z 150%Z (Some [Fill]))).
  reflexivity.
Defined.

Lemma succeeds_not_fails (m : Draw unit) : succeeds m -> fails m -> False.
Proof.
  intros Hs Hf. destruct (Hs []) as [log E].
  specialize (Hf []). by rewrite E in Hf.
Qed.

Lemma fails_bind {A B} (m : Draw A) (k : A -> Draw B) :
  fails m -> fails (m ≫= k).
Proof.
  intros Hm ctx. specialize (Hm ctx). unfold mbind, Draw_bind.
  destruct (m ctx) as [[a|] l]; [discriminate | reflexivity].
Qed.

Lemma fails_then (m : Draw unit) {B} (k : Draw B) :
  succeeds m -> fails k -> fails (m ;; k).
Proof.
  intros Hm Hk ctx. destruct (Hm ctx) as [log E].
  unfold mbind, Draw_bind. rewrite E. apply Hk.
Qed.

Lemma fails_forEach {A} (l : list A) (f : A -> Draw unit) :
  Forall (fun a => succeeds (f a) \/ fails (f a)) l ->
  Exists (fun a => fails (f a)) l -> fails (forEach l f).
Proof.
  induction 1 as [|a l Ha _ IH]; intros He.
  - by apply Exists_nil in He.
  - cbn. destruct Ha as [Ha|Ha]; [|by apply fails_bind].
    apply fails_then; [exact Ha|]. apply IH.
    apply Exists_cons in He as [He|He]; [|exact He].
    destruct (succeeds_not_fails _ Ha He).
Qed.

Lemma fails_drawConnection s e : fails (drawConnection (mkConnection s e None)).
Proof.
  unfold drawConnection; cbn.
  repeat (apply fails_then; [apply succeeds_call|]).
  by apply fails_bind.
Qed.

Lemma connection_fails st s e k :
  weights st !! k = None ->
  fails (drawConnection (mkConnection s e (JS.Num <$> (weights st !! k)))).
Proof. intros ->. apply fails_drawConnection. Qed.

Lemma drawConnection_outcome c :
  succeeds (drawConnection c) \/ fails (drawConnection c).
Proof.
  destruct c as [s e [n|]];
    [left; apply succeeds_drawConnection | right; apply fails_drawConnection].
Qed.

Lemma fails_drawNode_input st acts key pos :
  key = "A" \/ key = "B" -> inputs st !! key = None ->
  fails (drawNode st acts (key, pos)).
Proof.
  intros Hk Hn. unfold drawNode.
  repeat (apply fails_then; [apply succeeds_call|]).
  apply fails_bind. rewrite decide_True by exact Hk.
  rewrite Hn. by apply fails_bind.
Qed.

Lemma drawNode_outcome st acts entry :
  entry ∈ nodes ->
  succeeds (drawNode st acts entry) \/ fails (drawNode st acts entry).
Proof.
  destruct entry as [key pos]. intros Hin.
  destruct (nodeValue st acts key) as [n|] eqn:E.
  - left. by eapply succeeds_drawNode.
  - right. unfold nodes in Hin.
    repeat (apply elem_of_cons in Hin as [Hin|Hin];
            [injection Hin as -> ->|]);
      try (by apply elem_of_nil in Hin);
      try discriminate E.
    + apply fails_drawNode_input; [by left|].
      unfold nodeValue in E. cbn in E. by destruct (inputs st !! "A").
    + apply fails_drawNode_input; [by right|].
      unfold nodeValue in E. cbn in E. by destruct (inputs st !! "B").
Qed.

Lemma succeeds_header_then (k : Draw unit) c :
  succeeds k -> succeeds (call c ;; k).
Proof. intros. by apply succeeds_then; [apply succeeds_call|]. Qed.

Lemma defined_on_dec keys (o : object) :
  {defined_on keys o} + {Exists (fun k => o !! k = None) keys}.
Proof.
  unfold defined_on. induction keys as [|k keys [IH|IH]].
  - left. constructor.
  - destruct (o !! k) as [v|] eqn:E.
    + left. constructor; [by rewrite E | exact IH].
    + right. by constructor.
  - right. by constructor 2.
Defined.

(** X17: With a canvas and its context, [drawNetwork] returns exactly when the
    two inputs and the six weights are there; a missing one ends it in a
    [TypeError] ([undefined.toFixed]).  The biases do not matter: a
    missing bias is drawn as [NaN]. *)
Theorem drawNetwork_returns_iff st canvas ctx dpr :
  getContext2d canvas = Some ctx ->
  ((drawNetwork st (mkWorld (Some canvas) dpr)).1 = Returned
   <-> defined_on inputKeys (inputs st) /\ defined_on weightKeys (weights st))
  /\ ((drawNetwork st (mkWorld (Some canvas) dpr)).1 = ThrewTypeError
      <-> ~ (defined_on inputKeys (inputs st)
             /\ defined_on weightKeys (weights st))).
Proof.
  intros Hctx.
  set (d := JS.Num (JS.or_else dpr 1)).
  assert (Hrun : (drawNetwork st (mkWorld (Some canvas) dpr)).1
                 = match (drawScene st d ctx).1 with
                   | Some _ => Returned
                   | None => ThrewTypeError
                   end).
  { unfold drawNetwork. cbn. rewrite Hctx. fold d.
    by destruct (drawScene st d ctx). }
  rewrite Hrun. clear Hrun.
  assert (Hconn : Forall (fun c => succeeds (drawConnection c)
                                   \/ fails (drawConnection c))
                    (connections st))
    by (apply Forall_forall; intros; apply drawConnection_outcome).
  assert (Hnode : Forall (fun n => succeeds (drawNode st
                                               (calculateActivations st) n)
                                   \/ fails (drawNode st
                                               (calculateActivations st) n))
                    nodes)
    by (apply Forall_forall; intros; by apply drawNode_outcome).
  assert (Hok : defined_on inputKeys (inputs st)
                /\ defined_on weightKeys (weights st)
                -> (drawScene st d ctx).1 = Some tt).
  { intros [Hi Hw].
    assert (Hs : succeeds (drawScene st d)).
    { unfold drawScene.
      repeat apply succeeds_header_then.
      apply succeeds_then; apply succeeds_forEach.
      - unfold connections, defined_on, weightKeys in *.
        repeat match goal with
               | H : Forall _ (_ :: _) |- _ =>
                   apply Forall_cons in H; destruct H
               | H : is_Some _ |- _ => destruct H as [? ->]
               end.
        repeat constructor; apply succeeds_drawConnection.
      - unfold nodes, defined_on, inputKeys in *.
        repeat match goal with
               | H : Forall _ (_ :: _) |- _ =>
                   apply Forall_cons in H; destruct H
               | H : is_Some _ |- _ => destruct H as [? ?]
               end.
        repeat constructor;
          eapply succeeds_drawNode; unfold nodeValue; cbn;
          try reflexivity;
          match goal with H : inputs st !! _ = Some _ |- _ =>
            rewrite H; reflexivity end. }
    destruct (Hs ctx) as [log E]. by rewrite E. }
  assert (Hko : ~ (defined_on inputKeys (inputs st)
                   /\ defined_on weightKeys (weights st))
                -> (drawScene st d ctx).1 = None).
  { intros Hn.
    assert (Hf : fails (drawScene st d)); [|apply Hf].
    unfold drawScene.
    repeat (apply fails_then; [apply succeeds_call|]).
    destruct (defined_on_dec weightKeys (weights st)) as [Hw|Hw].
    - destruct (defined_on_dec inputKeys (inputs st)) as [Hi|Hi];
        [tauto|].
      apply fails_then.
      + apply succeeds_forEach.
        unfold connections, defined_on, weightKeys in *.
        repeat match goal with
               | H : Forall _ (_ :: _) |- _ =>
                   apply Forall_cons in H; destruct H
               | H : is_Some _ |- _ => destruct H as [? ->]
               end.
        repeat constructor; apply succeeds_drawConnection.
      + apply fails_forEach; [exact Hnode|].
        unfold inputKeys in Hi. unfold nodes.
        apply Exists_cons in Hi as [Hi|Hi].
        * apply Exists_cons_hd. apply fails_drawNode_input; [by left|done].
        * apply Exists_cons in Hi as [Hi|Hi]; [|by apply Exists_nil in Hi].
          apply Exists_cons_tl, Exists_cons_hd.
          apply fails_drawNode_input; [by right|done].
    - apply fails_bind. apply fails_forEach; [exact Hconn|].
      unfold weightKeys in Hw. unfold connections.
      repeat (apply Exists_cons in Hw as [Hw|Hw];
              [repeat first [ apply Exists_cons_hd, connection_fails;
                              exact Hw
                            | apply Exists_cons_tl ] |]).
      by apply Exists_nil in Hw. }
  destruct (defined_on_dec inputKeys (inputs st)) as [Hi|Hi];
    [destruct (defined_on_dec weightKeys (weights st)) as [Hw|Hw]|].
  - rewrite Hok by tauto. split; split; try tauto; try discriminate.
  - assert (Hn : ~ (defined_on inputKeys (inputs st)
                    /\ defined_on weightKeys (weights st))).
    { intros [_ Hw']. unfold defined_on in Hw'.
      apply Exists_exists in Hw as (k & Hk & Hnone).
      rewrite Forall_forall in Hw'. specialize (Hw' k Hk).
      rewrite Hnone in Hw'. by destruct Hw'. }
    rewrite Hko by exact Hn. split; split; try tauto; try discriminate.
  - assert (Hn : ~ (defined_on inputKeys (inputs st)
                    /\ defined_on weightKeys (weights st))).
    { intros [Hi' _]. unfold defined_on in Hi'.
      apply Exists_exists in Hi as (k & Hk & Hnone).
      rewrite Forall_forall in Hi'. specialize (Hi' k Hk).
      rewrite Hnone in Hi'. by destruct Hi'. }
    rewrite Hko by exact Hn. split; split; try tauto; try discriminate.
Qed.

Lemma drawNetwork_returns_iff_witness :
  (drawNetwork (setBiases (fun _ => ∅) boundaryState)
     (mkWorld (Some (mkCanvas 300%Z 150%Z (Some []))) None)).1 = Returned.
Proof.
  apply (proj1 (drawNetwork_returns_iff
                  (setBiases (fun _ => ∅) boundaryState)
                  (mkCanvas 300%Z 150%Z (Some [])) [] None eq_refl)).
  split; cbn; repeat constructor; eexists; reflexivity.
Defined.

Lemma bind_run {A B} (m : Draw A) (k : A -> Draw B) ctx a ctx' :
  m ctx = (Some a, ctx') -> (m ≫= k) ctx = k a ctx'.
Proof. intros E. unfold mbind, Draw_bind. by rewrite E. Qed.

Lemma forEach_run {A} (l : list A) (f : A -> Draw unit)
    (logf : A -> list cmd) ctx :
  Forall (fun a => forall ctx, f a ctx = (Some tt, ctx ++ logf a)) l ->
  forEach l f ctx = (Some tt, ctx ++ concat (map logf l)).
Proof.
  intros Hl. revert ctx. induction Hl as [|a l Ha _ IH]; intros ctx; cbn.
  - by rewrite app_nil_r.
  - rewrite (bind_run _ _ _ _ _ (Ha ctx)), IH. by rewrite app_assoc.
Qed.

Lemma drawConnection_run c ctx :
  is_Some (weight c) ->
  drawConnection c ctx = (Some tt, ctx ++ connection_log c).
Proof.
  intros [n Hn]. destruct c as [s e w]. cbn in Hn. subst w.
  unfold drawConnection, connection_log. rewrite !call_then.
  unfold mbind, Draw_bind, mret, Draw_ret, call, toFixed2.
  cbn -[getWeightColor]. rewrite <- !app_assoc. reflexivity.
Qed.

Lemma drawNode_run st entry ctx :
  is_Some (nodeValue st (calculateActivations st) entry.1) ->
  drawNode st (calculateActivations st) entry ctx
  = (Some tt, ctx ++ node_log st entry).
Proof.
  intros [n Hn]. destruct entry as [key pos]. cbn in Hn.
  unfold drawNode, node_log. rewrite !call_then. cbn [fst snd].
  rewrite Hn. cbn [asNumber].
  assert (E : (if decide (key = "A" \/ key = "B")
               then t ← toFixed2 (JS.Num <$> (inputs st !! key));
                    mret (Template "Value: " t)
               else t ← toFixed2 (Some n); mret (Template "Activation: " t))
              = mret (Template (if decide (key = "A" \/ key = "B")
                                then "Value: " else "Activation: ")
                        (Fixed2 n))).
  { unfold nodeValue in Hn. destruct (decide _); [|reflexivity].
    by rewrite Hn. }
  rewrite E. unfold mbind, Draw_bind, mret, Draw_ret, call.
  cbn -[getActivationColor]. rewrite <- !app_assoc. reflexivity.
Qed.

Lemma drawScene_run st d ctx :
  defined_on inputKeys (inputs st) -> defined_on weightKeys (weights st) ->
  drawScene st d ctx
  = (Some tt,
     ctx ++ [Scale d d; ClearRect 0%Z 0%Z 800%Z 500%Z;
             SetFillStyle (css "#333"); SetFont (openSans "bold" 20);
             SetTextAlign "center";
             FillText (Str "Input Layer") (Pos.x nodes_A) 40%Z;
             FillText (Str "Hidden Layer") (Pos.x nodes_H1) 40%Z;
             FillText (Str "Output Layer") (Pos.x nodes_O) 40%Z;
             SetLineWidth 3%Z; SetFont (openSans "" 12)]
         ++ concat (map connection_log (connections st))
         ++ concat (map (node_log st) nodes)).
Proof.
  intros Hi Hw. unfold drawScene. rewrite !call_then.
  erewrite bind_run; cycle 1.
  { apply forEach_run with (logf := connection_log).
    unfold connections, defined_on, weightKeys in *.
    repeat match goal with
           | H : Forall _ (_ :: _) |- _ => apply Forall_cons in H; destruct H
           | H : is_Some _ |- _ => destruct H as [? ->]
           end.
    repeat constructor; intros; apply drawConnection_run; cbn; eauto. }
  rewrite forEach_run with (logf := node_log st).
  - rewrite <- !app_assoc. reflexivity.
  - unfold nodes, defined_on, inputKeys in *.
    repeat match goal with
           | H : Forall _ (_ :: _) |- _ => apply Forall_cons in H; destruct H
           | H : is_Some _ |- _ => destruct H as [? ?]
           end.
    repeat constructor; intros; apply drawNode_run; unfold nodeValue; cbn;
      eauto;
      match goal with H : inputs st !! _ = Some _ |- _ =>
        rewrite H; cbn; eauto end.
Qed.

(** X18: A redraw strokes exactly one segment per connection, in their order,
    from the right rim of the start node to the left rim of the end
    node, in the colour of its weight; and fills exactly one disc per
    node, in their order, at the node's place, of radius 30, in the
    colour of the input value (A, B) or of the activation (H1, H2, O). *)
Theorem redraw_draws_every_edge_and_node st canvas ctx dpr :
  defined_on inputKeys (inputs st) -> defined_on weightKeys (weights st) ->
  getContext2d canvas = Some ctx ->
  exists c log,
    drawNetwork st (mkWorld (Some canvas) dpr)
    = (Returned, mkWorld (Some c) dpr)
    /\ getContext2d c = Some (ctx ++ log)
    /\ segments log = map segment_of (connections st)
    /\ discs log = map (disc_of st) nodes.
Proof.
  intros Hi Hw Hctx. unfold drawNetwork. cbn. rewrite Hctx.
  rewrite (drawScene_run st _ ctx Hi Hw).
  eexists _, _. split; [reflexivity|]. cbn [getContext2d].
  split; [reflexivity|]. split; reflexivity.
Qed.

Lemma redraw_draws_every_edge_and_node_witness :
  exists c log,
    drawNetwork boundaryState
      (mkWorld (Some (mkCanvas 300%Z 150%Z (Some []))) None)
    = (Returned, mkWorld (Some c) None)
    /\ getContext2d c = Some ([] ++ log)
    /\ segments log = map segment_of (connections boundaryState)
    /\ discs log = map (disc_of boundaryState) nodes.
Proof.
  apply (redraw_draws_every_edge_and_node boundaryState
           (mkCanvas 300%Z 150%Z (Some [])) [] None).
  - cbn; repeat constructor; eexists; reflexivity.
  - cbn; repeat constructor; eexists; reflexivity.
  - reflexivity.
Defined.

(** X19: A connection whose weight is missing is still stroked, in the grey
    of a zero weight, and the [TypeError] comes only then, before its
    label is written. *)
Theorem missing_weight_strokes_grey_then_throws s e ctx :
  drawConnection (mkConnection s e None) ctx
  = (None,
     ctx ++ [BeginPath;
             SetStrokeStyle (rgba 100%Z 100%Z 100%Z (JS.Num 0.5));
             MoveTo (Pos.x s + nodeRadius)%js (Pos.y s);
             LineTo (Pos.x e - nodeRadius)%js (Pos.y e);
             Stroke;
             SetFillStyle (css "#333");
             SetTextAlign "center"]).
Proof.
  unfold drawConnection. rewrite !call_then.
  unfold mbind, Draw_bind, toFixed2, throw. cbn.
  rewrite <- !app_assoc. reflexivity.
Qed.





End DrawingMore.

(** ** The floating canvas *)

Section Floating.
Local Open Scope R_scope.

(** X21: Scrolling, dragging and the Return button never touch the network:
    the three objects, and so the activations, are as before. *)
Theorem canvas_events_keep_network e st :
  (forall c, e <> SliderChange c) -> e <> ResetClick ->
  inputs (dispatch e st) = inputs st
  /\ weights (dispatch e st) = weights st
  /\ biases (dispatch e st) = biases st
  /\ calculateActivations (dispatch e st) = calculateActivations st.
Proof.
  intros Hs Hr.
  destruct e as [c| | b | d |]; cbn;
    [by destruct (Hs c) | done | | |].
  - unfold observerCallback. by destruct b.
  - unfold onDrag. by destruct (isFloating st).
  - done.
Qed.

Lemma canvas_events_keep_network_witness :
  inputs (dispatch (Drag (3, 4)) boundaryState) = inputs boundaryState
  /\ weights (dispatch (Drag (3, 4)) boundaryState) = weights boundaryState
  /\ biases (dispatch (Drag (3, 4)) boundaryState) = biases boundaryState
  /\ calculateActivations (dispatch (Drag (3, 4)) boundaryState)
     = calculateActivations boundaryState.
Proof.
  apply (canvas_events_keep_network (Drag (3, 4)) boundaryState);
    discriminate.
Defined.

(** X22: Where the canvas is shown.  Docked, it is at the origin and drags are
    ignored.  The Return button docks it and forgets the drag, so it next
    floats at the origin; scrolling back docks it too but keeps the drag,
    so it next floats where it was dragged to. *)
Theorem return_recentres_scrolling_back_does_not st (p : R * R) :
  (isFloating st = false ->
   draggablePosition st = (0, 0) /\ dispatch (Drag p) st = st)
  /\ draggablePosition (dispatch ReturnClick st) = (0, 0)
  /\ draggablePosition
       (dispatch (Intersection false) (dispatch ReturnClick st)) = (0, 0)
  /\ (isFloating st = true ->
      draggablePosition (dispatch (Drag p) st) = p
      /\ draggablePosition
           (dispatch (Intersection true) (dispatch (Drag p) st)) = (0, 0)
      /\ draggablePosition
           (dispatch (Intersection false)
              (dispatch (Intersection true) (dispatch (Drag p) st))) = p).
Proof.
  destruct p as [x y]. split; [|split; [|split]]; try reflexivity.
  - intros Hf. unfold draggablePosition. cbn. unfold onDrag.
    rewrite Hf. split; reflexivity.
  - intros Hf. unfold draggablePosition. cbn. unfold onDrag.
    rewrite Hf. cbn. rewrite Hf. repeat split.
Qed.

Lemma return_recentres_scrolling_back_does_not_witness :
  let st := dispatch (Intersection false) initialState in
  draggablePosition (dispatch (Drag (3, 4)) st) = (3, 4)
  /\ draggablePosition
       (dispatch (Intersection true) (dispatch (Drag (3, 4)) st)) = (0, 0)
  /\ draggablePosition
       (dispatch (Intersection false)
          (dispatch (Intersection true) (dispatch (Drag (3, 4)) st)))
     = (3, 4).
Proof.
  apply (proj2 (proj2 (proj2
           (return_recentres_scrolling_back_does_not
              (dispatch (Intersection false) initialState) (3, 4))))).
  reflexivity.
Defined.

End Floating.

(** ** The slider sections *)

Section SliderSections.

Lemma weightKeys_cases (k : string) :
  k ∈ weightKeys ->
  k = "A->H1" \/ k = "A->H2" \/ k = "B->H1" \/ k = "B->H2"
  \/ k = "H1->O" \/ k = "H2->O".
Proof.
  unfold weightKeys. rewrite !elem_of_cons, elem_of_nil. tauto.
Qed.

(** X23: On the page every weight has exactly one slider: the four weights
    into the hidden layer in the first section, the two into the output
    neuron in the second, and no weight in both. *)
Theorem weight_sliders_partition st :
  reachable st ->
  hiddenWeightSliders st = list_to_set ["A->H1"; "A->H2"; "B->H1"; "B->H2"]
  /\ outputWeightSliders st = list_to_set ["H1->O"; "H2->O"]
  /\ hiddenWeightSliders st ∪ outputWeightSliders st = dom (weights st)
  /\ hiddenWeightSliders st ∩ outputWeightSliders st = ∅.
Proof.
  intros Hst. apply slider_invariant_reachable in Hst as (_ & Dw & _).
  unfold hiddenWeightSliders, outputWeightSliders. rewrite Dw.
  assert (Hh : forall k,
             k ∈ filter (fun k => includes "->H" k = true)
                   (list_to_set weightKeys : gset string)
             <-> k ∈ ["A->H1"; "A->H2"; "B->H1"; "B->H2"]).
  { intros k. rewrite elem_of_filter, elem_of_list_to_set. split.
    - intros [Hinc Hk]. apply weightKeys_cases in Hk.
      rewrite !elem_of_cons.
      destruct Hk as [->|[->|[->|[->|[->| ->]]]]]; auto;
        discriminate Hinc.
    - rewrite !elem_of_cons, elem_of_nil. unfold weightKeys.
      intros [->|[->|[->|[->|[]]]]];
        (split; [reflexivity | rewrite !elem_of_cons; tauto]). }
  assert (Ho : forall k,
             k ∈ filter (fun k => includes "->O" k = true)
                   (list_to_set weightKeys : gset string)
             <-> k ∈ ["H1->O"; "H2->O"]).
  { intros k. rewrite elem_of_filter, elem_of_list_to_set. split.
    - intros [Hinc Hk]. apply weightKeys_cases in Hk.
      rewrite !elem_of_cons.
      destruct Hk as [->|[->|[->|[->|[->| ->]]]]]; auto;
        discriminate Hinc.
    - rewrite !elem_of_cons, elem_of_nil. unfold weightKeys.
      intros [->|[->|[]]];
        (split; [reflexivity | rewrite !elem_of_cons; tauto]). }
  split_and!; apply set_eq; intros k.
  - by rewrite Hh, elem_of_list_to_set.
  - by rewrite Ho, elem_of_list_to_set.
  - rewrite elem_of_union, Hh, Ho, elem_of_list_to_set.
    unfold weightKeys. rewrite !elem_of_cons, !elem_of_nil. tauto.
  - rewrite elem_of_intersection, Hh, Ho, elem_of_empty.
    rewrite !elem_of_cons, !elem_of_nil.
    split; [|tauto].
    intros [[->|[->|[->|[->|[]]]]] [H|[H|[]]]]; discriminate H.
Qed.

Lemma weight_sliders_partition_witness :
  hiddenWeightSliders (dispatch ResetClick initialState)
  = list_to_set ["A->H1"; "A->H2"; "B->H1"; "B->H2"].
Proof.
  apply (proj1 (weight_sliders_partition (dispatch ResetClick initialState)
                  (reachable_dispatch _ ResetClick reachable_initial I))).
Defined.

End SliderSections.
